(** * MPV controller: a shallow embedding of [mpv_controller.py]

    The controller supervises an external player process and talks to it
    over a Unix socket.  Everything outside the Python object (filesystem,
    child process, socket peer, the [aplay] tool, the JSON and pathlib
    libraries) is gathered in an environment [Env] of oracles indexed by a
    logical clock that advances with every interaction; the part of the
    outside world that the controller itself changes (the socket file) and
    a record of the effects it performed live in [World].  Methods become
    computations in a state-and-exception monad over [Controller * World];
    helpers that never touch [self] live in the smaller monad over [World]
    alone.  The model is deterministic given the environment, and every
    statement quantifies over all environments.

    Modelling choices:
    - a Python exception is an outcome [Raise e]; state changes made before
      the exception are kept, as in Python;
    - logging has no effect and never fails;
    - [Path.exists()] answers or raises: it re-raises every [OSError] of
      [stat] other than the not-found family (a permission error, an
      over-long name, an I/O error);
    - [Popen.terminate()] and [Popen.kill()] poll the child first and send
      nothing to a child that has exited; [poll] is the answer of the
      environment at that instant (a child that exited is not reported
      running again by any real environment, but no statement relies on
      that);
    - a process exists, and a signal is delivered, only when the call that
      creates or sends it returns;
    - one connection delivers finitely many chunks;
    - a [str] is a string of 8-bit characters with ASCII case folding and
      ASCII whitespace;
    - the controller is used by one caller at a time. *)

From Stdlib Require Import ZArith List String Ascii Bool Lia.
From Stdlib Require Import Strings.Byte.
From Stdlib Require Import Floats.SpecFloat DecimalString.
From ExtLib Require Import Structures.Monad Structures.MonadExc.
Import ListNotations.
Import MonadNotation.
Local Open Scope string_scope.
Local Open Scope monad_scope.

Set Implicit Arguments.
Set Warnings "-register-all".

(** ** Python values *)

(** Values that cross the JSON boundary or are stored in the loosely typed
    attributes of the controller.  Floats are IEEE doubles in their
    specification form; a dict is its list of items. *)
Inductive pyval : Type :=
| PNone
| PBool (b : bool)
| PInt (z : Z)
| PFloat (f : spec_float)
| PStr (s : string)
| PList (l : list pyval)
| PDict (d : list (string * pyval)).

(** The literal [0.0]. *)
Definition float_zero : spec_float := S754_zero false.

Definition float_is_zero (f : spec_float) : bool :=
  match f with S754_zero _ => true | _ => false end.

(** Python truthiness, as used by [if x], [x and y], [x or y], [not x]. *)
Definition truthy (v : pyval) : bool :=
  match v with
  | PNone => false
  | PBool b => b
  | PInt z => negb (Z.eqb z 0)
  | PFloat f => negb (float_is_zero f)
  | PStr s => negb (String.eqb s "")
  | PList l => match l with [] => false | _ :: _ => true end
  | PDict d => match d with [] => false | _ :: _ => true end
  end.

(** [a or b] *)
Definition py_or (a b : pyval) : pyval := if truthy a then a else b.

(** [not a] *)
Definition py_not (a : pyval) : pyval := PBool (negb (truthy a)).

(** [v == s] for a string literal [s]. *)
Definition py_eq_str (v : pyval) (s : string) : bool :=
  match v with PStr t => String.eqb t s | _ => false end.

Fixpoint dict_get (d : list (string * pyval)) (key : string) : pyval :=
  match d with
  | [] => PNone
  | (k, v) :: rest => if String.eqb k key then v else dict_get rest key
  end.

(** ** Exceptions and outcomes *)

Inductive exn : Type :=
| SocketTimeout      (* socket.timeout *)
| TimeoutExpired     (* subprocess.TimeoutExpired *)
| OSError
| ValueError         (* includes JSONDecodeError and UnicodeDecodeError *)
| TypeError
| AttributeError.

Definition is_socket_timeout (e : exn) : bool :=
  match e with SocketTimeout => true | _ => false end.

Definition is_timeout_expired (e : exn) : bool :=
  match e with TimeoutExpired => true | _ => false end.

Inductive outcome (A : Type) : Type :=
| Ok (a : A)
| Raise (e : exn).
Arguments Raise {A} e.

(** [v.get(key)]: only dicts have a [get] method. *)
Definition py_get (v : pyval) (key : string) : outcome pyval :=
  match v with
  | PDict d => Ok (dict_get d key)
  | _ => Raise AttributeError
  end.

(** ** Player state *)

Inductive PlayerState : Type := STOPPED | PLAYING | PAUSED | ERROR.

Definition value (s : PlayerState) : string :=
  match s with
  | STOPPED => "stopped"
  | PLAYING => "playing"
  | PAUSED => "paused"
  | ERROR => "error"
  end.

(** ** The outside world *)

(** Handle of a spawned child process. *)
Definition proc : Type := nat.

(** One [recv] on a connected socket. *)
Inductive recv_result : Type :=
| Chunk (data : list byte)
| RecvFail (e : exn).

(** What happened to the socket file since it was last looked at. *)
Inductive fs_event : Type := FsNothing | FsCreated | FsRemoved.

(** Answers of the environment.  The [nat] argument is the logical time of
    the query; [None] in an [option exn] means the call returned normally. *)
Record Env : Type := {
  (* filesystem *)
  stat_raises    : string -> nat -> option exn;
  media_exists   : string -> nat -> bool;
  socket_event   : nat -> fs_event;
  unlink_raises  : nat -> option exn;
  (* child processes *)
  popen          : list string -> nat -> outcome proc;
  poll           : proc -> nat -> option Z;
  terminate      : proc -> nat -> option exn;
  kill           : proc -> nat -> option exn;
  wait           : proc -> nat -> nat -> option exn;
  aplay          : nat -> outcome string;
  (* socket peer *)
  ipc_connect    : nat -> option exn;
  ipc_sendall    : string -> nat -> option exn;
  ipc_reply      : string -> nat -> list recv_result;
  (* libraries *)
  json_dumps     : pyval -> outcome string;
  utf8_decode    : list byte -> outcome string;
  json_loads     : string -> outcome pyval;
  path_name      : string -> string;
  path_join      : string -> string -> string
}.

(** Signals sent to a child. *)
Inductive signal : Type := SIGTERM | SIGKILL.

(** The part of the world the controller changes, and a record of the
    effects it performed (newest first). *)
Record World : Type := {
  clock    : nat;
  sock     : bool;                      (* does /tmp/mpv-socket exist *)
  sent     : list string;               (* payloads handed to sendall *)
  connects : nat;                       (* sockets opened *)
  spawned  : list (list string);        (* command lines of the processes
                                           started *)
  signals  : list (proc * signal)       (* signals delivered *)
}.

Definition tick (w : World) : World :=
  {| clock := S (clock w); sock := sock w; sent := sent w;
     connects := connects w; spawned := spawned w; signals := signals w |}.

Definition set_sock (b : bool) (w : World) : World :=
  {| clock := clock w; sock := b; sent := sent w;
     connects := connects w; spawned := spawned w; signals := signals w |}.

Definition log_sent (s : string) (w : World) : World :=
  {| clock := clock w; sock := sock w; sent := s :: sent w;
     connects := connects w; spawned := spawned w; signals := signals w |}.

Definition log_connect (w : World) : World :=
  {| clock := clock w; sock := sock w; sent := sent w;
     connects := S (connects w); spawned := spawned w; signals := signals w |}.

Definition log_spawn (cmd : list string) (w : World) : World :=
  {| clock := clock w; sock := sock w; sent := sent w;
     connects := connects w; spawned := cmd :: spawned w; signals := signals w |}.

Definition log_signal (p : proc) (s : signal) (w : World) : World :=
  {| clock := clock w; sock := sock w; sent := sent w;
     connects := connects w; spawned := spawned w;
     signals := (p, s) :: signals w |}.

(** ** The controller object *)

Record Controller : Type := {
  media_dir         : string;
  hardware_accel    : bool;
  hdmi_output       : string;
  audio_in_headless : bool;
  process           : option proc;
  state             : PlayerState;
  current_file      : option string;
  current_position  : pyval;
  duration          : pyval;
  volume            : Z
}.

Definition with_process (p : option proc) (c : Controller) : Controller :=
  {| media_dir := media_dir c; hardware_accel := hardware_accel c;
     hdmi_output := hdmi_output c; audio_in_headless := audio_in_headless c;
     process := p; state := state c; current_file := current_file c;
     current_position := current_position c; duration := duration c;
     volume := volume c |}.

Definition with_state (s : PlayerState) (c : Controller) : Controller :=
  {| media_dir := media_dir c; hardware_accel := hardware_accel c;
     hdmi_output := hdmi_output c; audio_in_headless := audio_in_headless c;
     process := process c; state := s; current_file := current_file c;
     current_position := current_position c; duration := duration c;
     volume := volume c |}.

Definition with_current_file (f : option string) (c : Controller) : Controller :=
  {| media_dir := media_dir c; hardware_accel := hardware_accel c;
     hdmi_output := hdmi_output c; audio_in_headless := audio_in_headless c;
     process := process c; state := state c; current_file := f;
     current_position := current_position c; duration := duration c;
     volume := volume c |}.

Definition with_current_position (v : pyval) (c : Controller) : Controller :=
  {| media_dir := media_dir c; hardware_accel := hardware_accel c;
     hdmi_output := hdmi_output c; audio_in_headless := audio_in_headless c;
     process := process c; state := state c; current_file := current_file c;
     current_position := v; duration := duration c; volume := volume c |}.

Definition with_duration (v : pyval) (c : Controller) : Controller :=
  {| media_dir := media_dir c; hardware_accel := hardware_accel c;
     hdmi_output := hdmi_output c; audio_in_headless := audio_in_headless c;
     process := process c; state := state c; current_file := current_file c;
     current_position := current_position c; duration := v;
     volume := volume c |}.

Definition with_volume (v : Z) (c : Controller) : Controller :=
  {| media_dir := media_dir c; hardware_accel := hardware_accel c;
     hdmi_output := hdmi_output c; audio_in_headless := audio_in_headless c;
     process := process c; state := state c; current_file := current_file c;
     current_position := current_position c; duration := duration c;
     volume := v |}.

Definition with_hdmi_output (o : string) (c : Controller) : Controller :=
  {| media_dir := media_dir c; hardware_accel := hardware_accel c;
     hdmi_output := o; audio_in_headless := audio_in_headless c;
     process := process c; state := state c; current_file := current_file c;
     current_position := current_position c; duration := duration c;
     volume := volume c |}.

(** The dictionary returned by [get_status]; its six keys are fixed. *)
Record Status : Type := {
  st_state        : string;
  st_current_file : option string;
  st_position     : pyval;
  st_duration     : pyval;
  st_volume       : Z;
  st_is_paused    : pyval
}.

(** ** Monads *)

(** Computations that only touch the world. *)
Definition W (A : Type) : Type := World -> outcome A * World.

(** Methods: computations over the object and the world. *)
Definition M (A : Type) : Type :=
  Controller * World -> outcome A * (Controller * World).

#[global] Instance Monad_W : Monad W := {|
  ret := fun _ a w => (Ok a, w);
  bind := fun _ _ m k w =>
    match m w with
    | (Ok a, w') => k a w'
    | (Raise e, w') => (Raise e, w')
    end
|}.

#[global] Instance Exc_W : MonadExc exn W := {|
  raise := fun _ e w => (Raise e, w);
  catch := fun _ m h w =>
    match m w with
    | (Ok a, w') => (Ok a, w')
    | (Raise e, w') => h e w'
    end
|}.

#[global] Instance Monad_M : Monad M := {|
  ret := fun _ a s => (Ok a, s);
  bind := fun _ _ m k s =>
    match m s with
    | (Ok a, s') => k a s'
    | (Raise e, s') => (Raise e, s')
    end
|}.

#[global] Instance Exc_M : MonadExc exn M := {|
  raise := fun _ e s => (Raise e, s);
  catch := fun _ m h s =>
    match m s with
    | (Ok a, s') => (Ok a, s')
    | (Raise e, s') => h e s'
    end
|}.

(** Run a world computation inside a method. *)
Definition lift {A : Type} (m : W A) : M A :=
  fun s => let (r, w') := m (snd s) in (r, (fst s, w')).

(** [self] *)
Definition self : M Controller := fun s => (Ok (fst s), s).

(** Assignment to attributes of [self]. *)
Definition update (f : Controller -> Controller) : M unit :=
  fun s => (Ok tt, (f (fst s), snd s)).

(** A pure expression that may raise. *)
Definition of_outcome {A : Type} (r : outcome A) : W A := fun w => (r, w).

(** [try: m  except E: h] for the exceptions selected by [sel]. *)
Definition except_ {m : Type -> Type} {Mm : Monad m} {Em : MonadExc exn m}
    {A : Type} (sel : exn -> bool) (body : m A) (h : exn -> m A) : m A :=
  catch body (fun e => if sel e then h e else raise e).

(** [try: m  finally: f] *)
Definition finally_ {A : Type} (body : M A) (f : M unit) : M A :=
  fun s =>
    match body s with
    | (r, s') =>
        match f s' with
        | (Ok _, s'') => (r, s'')
        | (Raise e, s'') => (Raise e, s'')
        end
    end.

(** ** String helpers of the Python standard library

    A [str] is modelled as a string of 8-bit characters with ASCII case
    folding and ASCII whitespace. *)

Definition newline : ascii := "010"%char.

(** [s.split('\n')] *)
Fixpoint split_lines (s : string) : list string :=
  match s with
  | EmptyString => [EmptyString]
  | String c rest =>
      if Ascii.eqb c newline then EmptyString :: split_lines rest
      else match split_lines rest with
           | [] => [String c EmptyString]
           | l :: ls => String c l :: ls
           end
  end.

Definition lower_ascii (c : ascii) : ascii :=
  let n := nat_of_ascii c in
  if Nat.leb 65 n && Nat.leb n 90 then ascii_of_nat (n + 32) else c.

(** [s.lower()] *)
Fixpoint lower (s : string) : string :=
  match s with
  | EmptyString => EmptyString
  | String c rest => String (lower_ascii c) (lower rest)
  end.

(** [s.startswith(p)] *)
Fixpoint startswith (p s : string) : bool :=
  match p, s with
  | EmptyString, _ => true
  | String _ _, EmptyString => false
  | String a p', String b s' => Ascii.eqb a b && startswith p' s'
  end.

(** [sub in s] *)
Fixpoint contains (sub s : string) : bool :=
  startswith sub s ||
  match s with
  | EmptyString => false
  | String _ rest => contains sub rest
  end.

(** [c.isspace()] on ASCII. *)
Definition is_space (c : ascii) : bool :=
  let n := nat_of_ascii c in
  (Nat.leb 9 n && Nat.leb n 13) || (Nat.leb 28 n && Nat.leb n 32).

Fixpoint lstrip (s : string) : string :=
  match s with
  | EmptyString => EmptyString
  | String c rest => if is_space c then lstrip rest else s
  end.

Fixpoint rstrip (s : string) : string :=
  match s with
  | EmptyString => EmptyString
  | String c rest =>
      match rstrip rest with
      | EmptyString => if is_space c then EmptyString else String c EmptyString
      | r => String c r
      end
  end.

(** [s.strip()] *)
Definition strip (s : string) : string := rstrip (lstrip s).

(** [str(n)] for an int. *)
Definition str_of_int (z : Z) : string := NilZero.string_of_int (Z.to_int z).

(** The scan of [_detect_hdmi_audio] over the enumerated lines: [Some]
    is the [return] inside the loop, [None] is falling out of the loop. *)
Fixpoint scan_lines (lines : list string) : option string :=
  match lines with
  | [] => None
  | line :: rest =>
      if contains "vc4hdmi" (lower line) || contains "hdmi" (lower line) then
        if startswith "    " line then scan_lines rest
        else
          let device := strip line in
          if negb (String.eqb device "") then Some ("alsa/" ++ device)
          else scan_lines rest
      else scan_lines rest
  end.

(** The receive loop of [_send_command] over the results of the successive
    [recv] calls of one connection.  A connection delivers finitely many
    chunks; running out of them is the peer closing ([recv] returns [b'']). *)
Fixpoint recv_loop (script : list recv_result) (response_data : list byte)
    : outcome (list byte) :=
  match script with
  | [] => Ok response_data
  | RecvFail e :: _ => Raise e
  | Chunk chunk :: rest =>
      match chunk with
      | [] => Ok response_data
      | _ :: _ =>
          let response_data := (response_data ++ chunk)%list in
          if existsb (Byte.eqb x0a) chunk then Ok response_data
          else recv_loop rest response_data
      end
  end.

(** [response and response.get("error") == "success"] *)
Definition and_success (response : pyval) : outcome pyval :=
  if truthy response then
    match py_get response "error" with
    | Ok err => Ok (PBool (py_eq_str err "success"))
    | Raise e => Raise e
    end
  else Ok response.

(** [v > 0] *)
Definition py_gt_zero (v : pyval) : outcome bool :=
  match v with
  | PBool b => Ok b
  | PInt z => Ok (Z.ltb 0 z)
  | PFloat f => Ok (SFltb float_zero f)
  | _ => Raise TypeError
  end.

Definition is_none (v : pyval) : bool :=
  match v with PNone => true | _ => false end.

Definition socket_path : string := "/tmp/mpv-socket".

Definition max_attempts : nat := 20.

(** ** The methods of [MPVController] *)

Section Methods.

Variable E : Env.

(** *** Primitive effects *)

Definition opt_raise (r : option exn) : outcome unit :=
  match r with None => Ok tt | Some e => Raise e end.

(** [Path(file_path).exists()]: the error of a failing [stat] is raised,
    unless it is of the not-found family, which [media_exists] answers. *)
Definition path_exists (file_path : string) : W bool :=
  fun w =>
    (match stat_raises E file_path (clock w) with
     | Some e => Raise e
     | None => Ok (media_exists E file_path (clock w))
     end, tick w).

(** The socket file as it is once the events of this instant are applied. *)
Definition observe_socket (w : World) : World :=
  match socket_event E (clock w) with
  | FsNothing => w
  | FsCreated => set_sock true w
  | FsRemoved => set_sock false w
  end.

(** [self.socket_path.exists()] *)
Definition socket_path_exists : W bool :=
  fun w =>
    let w' := observe_socket w in
    (match stat_raises E socket_path (clock w) with
     | Some e => Raise e
     | None => Ok (sock w')
     end, tick w').

(** [self.socket_path.unlink()] *)
Definition socket_path_unlink : W unit :=
  fun w =>
    match unlink_raises E (clock w) with
    | None => (Ok tt, tick (set_sock false w))
    | Some e => (Raise e, tick w)
    end.

(** [time.sleep(_)] *)
Definition sleep : W unit := fun w => (Ok tt, tick w).

(** [subprocess.Popen(cmd, ...)]: a process exists only when the call
    returns. *)
Definition Popen (cmd : list string) : W proc :=
  fun w =>
    match popen E cmd (clock w) with
    | Ok p => (Ok p, tick (log_spawn cmd w))
    | Raise e => (Raise e, tick w)
    end.

(** [self.process.poll()] *)
Definition process_poll (p : proc) : W (option Z) :=
  fun w => (Ok (poll E p (clock w)), tick w).

(** [Popen.send_signal]: the child is polled first and nothing is sent
    once it has exited; the signal is delivered when the system call
    returns. *)
Definition send_signal (deliver : proc -> nat -> option exn) (sg : signal)
    (p : proc) : W unit :=
  fun w =>
    match poll E p (clock w) with
    | Some _ => (Ok tt, tick w)
    | None =>
        match deliver p (clock w) with
        | None => (Ok tt, tick (log_signal p sg w))
        | Some e => (Raise e, tick w)
        end
    end.

(** [self.process.terminate()] *)
Definition process_terminate (p : proc) : W unit :=
  send_signal (terminate E) SIGTERM p.

(** [self.process.kill()] *)
Definition process_kill (p : proc) : W unit :=
  send_signal (kill E) SIGKILL p.

(** [self.process.wait(timeout=t)] *)
Definition process_wait (p : proc) (t : nat) : W unit :=
  fun w => (opt_raise (wait E p t (clock w)), tick w).

(** [subprocess.run(["aplay", "-L"], ..., timeout=5).stdout] *)
Definition run_aplay : W string :=
  fun w => (aplay E (clock w), tick w).

(** [socket.socket(...)], [settimeout(2.0)], [connect(...)] *)
Definition socket_connect : W unit :=
  fun w => (opt_raise (ipc_connect E (clock w)), tick (log_connect w)).

(** [sock.sendall(command_str.encode('utf-8'))] *)
Definition socket_sendall (command_str : string) : W unit :=
  fun w => (opt_raise (ipc_sendall E command_str (clock w)),
            tick (log_sent command_str w)).

(** The [while True] loop of [recv] calls on the connection. *)
Definition socket_recv_response (command_str : string) : W (list byte) :=
  fun w => (recv_loop (ipc_reply E command_str (clock w)) [], tick w).

(** *** Socket and process cleanup *)

Definition _cleanup_socket : W unit :=
  catch
    (ex <- socket_path_exists ;;
     if ex then socket_path_unlink else ret tt)
    (fun _ => ret tt).

Definition _cleanup_process : M unit :=
  c <- self ;;
  match process c with
  | Some p =>
      finally_
        (catch
           (lift (process_terminate p) ;;
            except_ is_timeout_expired
              (lift (process_wait p 5))
              (fun _ => lift (process_kill p) ;; lift (process_wait p 2)))
           (fun _ => ret tt))
        (update (with_process None))
  | None => ret tt
  end ;;
  lift _cleanup_socket.

(** *** Audio device detection and command line *)

Definition _detect_hdmi_audio : W (option string) :=
  catch
    (stdout <- run_aplay ;;
     match scan_lines (split_lines stdout) with
     | Some device => ret (Some device)
     | None => ret (Some "alsa/default")
     end)
    (fun _ => ret None).

Definition _get_mpv_command (file_path : string) : M (list string) :=
  c <- self ;;
  let cmd :=
    [ "mpv"; "--no-terminal"; "--really-quiet";
      "--input-ipc-server=" ++ socket_path;
      "--idle=yes"; "--force-window=no"; "--keep-open=yes";
      "--volume=" ++ str_of_int (volume c) ] in
  let cmd :=
    List.app cmd
      [ "--vo=gpu"; "--gpu-context=drm";
        "--drm-connector=" ++
          (if negb (String.eqb (hdmi_output c) "auto") then hdmi_output c
           else "") ] in
  let cmd :=
    if hardware_accel c
    then List.app cmd [ "--hwdec=auto"; "--hwdec-codecs=all" ]
    else cmd in
  cmd <-
    (if audio_in_headless c then
       audio_device <- lift _detect_hdmi_audio ;;
       match audio_device with
       | Some d =>
           if negb (String.eqb d "")
           then ret (List.app cmd [ "--audio-device=" ++ d ])
           else ret cmd
       | None => ret cmd
       end
     else ret cmd) ;;
  let cmd :=
    List.app cmd [ "--video-output-levels=limited";
                   "--video-sync=display-resample" ] in
  ret (List.app cmd [ file_path ]).

(** *** IPC *)

Definition _send_command (command : pyval) : W pyval :=
  ex <- socket_path_exists ;;
  if negb ex then ret PNone
  else
    catch
      (socket_connect ;;
       dumped <- of_outcome (json_dumps E command) ;;
       let command_str := dumped ++ String newline EmptyString in
       socket_sendall command_str ;;
       response_data <- socket_recv_response command_str ;;
       match response_data with
       | _ :: _ =>
           text <- of_outcome (utf8_decode E response_data) ;;
           response <- of_outcome (json_loads E text) ;;
           ret response
       | [] => ret PNone
       end)
      (fun e => if is_socket_timeout e then ret PNone else ret PNone).

Definition get_property_command (property_name : string) : pyval :=
  PDict [("command", PList [PStr "get_property"; PStr property_name])].

Definition set_property_command (property_name : string) (v : pyval) : pyval :=
  PDict [("command", PList [PStr "set_property"; PStr property_name; v])].

Definition seek_command (amount : pyval) (mode : string) : pyval :=
  PDict [("command", PList [PStr "seek"; amount; PStr mode])].

Definition ao_reload_command : pyval :=
  PDict [("command", PList [PStr "ao-reload"])].

Definition _get_property (property_name : string) : W pyval :=
  response <- _send_command (get_property_command property_name) ;;
  if truthy response then
    err <- of_outcome (py_get response "error") ;;
    if py_eq_str err "success" then of_outcome (py_get response "data")
    else ret PNone
  else ret PNone.

Definition _set_property (property_name : string) (v : pyval) : W pyval :=
  response <- _send_command (set_property_command property_name v) ;;
  of_outcome (and_success response).

(** *** Public operations *)

Definition is_running : M bool :=
  c <- self ;;
  match process c with
  | None => ret false
  | Some p =>
      poll_result <- lift (process_poll p) ;;
      match poll_result with
      | Some _ =>
          _cleanup_process ;;
          update (with_state STOPPED) ;;
          ret false
      | None => ret true
      end
  end.

Definition stop : M bool :=
  catch
    (_cleanup_process ;;
     update (with_state STOPPED) ;;
     update (with_current_file None) ;;
     update (with_current_position (PFloat float_zero)) ;;
     update (with_duration (PFloat float_zero)) ;;
     ret true)
    (fun _ => ret false).

(** The wait for the socket: [true] is the [break], [false] the [else]
    branch of the [for] loop. *)
Fixpoint await_socket (attempts : nat) : W bool :=
  match attempts with
  | O => ret false
  | S k =>
      ex <- socket_path_exists ;;
      if ex then ret true else sleep ;; await_socket k
  end.

(** First part of the [try] block of [play], up to the assignment of
    [self.process]; [false] is the early [return False] for a missing file. *)
Definition play_launch (file_path : string) : M bool :=
  ex <- lift (path_exists file_path) ;;
  if negb ex then ret false
  else
    running <- is_running ;;
    (if running then stop ;; ret tt else ret tt) ;;
    cmd <- _get_mpv_command file_path ;;
    p <- lift (Popen cmd) ;;
    update (with_process (Some p)) ;;
    ret true.

(** The [try] block of [play]. *)
Definition play_body (file_path : string) : M bool :=
  launched <- play_launch file_path ;;
  if negb launched then ret false
  else
    ready <- lift (await_socket max_attempts) ;;
    if negb ready then
      _cleanup_process ;;
      ret false
    else
      update (with_state PLAYING) ;;
      update (with_current_file (Some (path_name E file_path))) ;;
      lift sleep ;;
      d <- lift (_get_property "duration") ;;
      update (with_duration (py_or d (PFloat float_zero))) ;;
      ret true.

Definition play (file_path : string) : M bool :=
  catch
    (play_body file_path)
    (fun _ =>
       _cleanup_process ;;
       update (with_state ERROR) ;;
       ret false).

Definition pause : M pyval :=
  running <- is_running ;;
  if negb running then ret (PBool false)
  else
    catch
      (is_paused <- lift (_get_property "pause") ;;
       success <- lift (_set_property "pause" (py_not is_paused)) ;;
       (if truthy success then
          update (with_state (if negb (truthy is_paused) then PAUSED
                              else PLAYING))
        else ret tt) ;;
       ret success)
      (fun _ => ret (PBool false)).

Definition resume : M pyval :=
  running <- is_running ;;
  if negb running then ret (PBool false)
  else
    catch
      (success <- lift (_set_property "pause" (PBool false)) ;;
       (if truthy success then update (with_state PLAYING) else ret tt) ;;
       ret success)
      (fun _ => ret (PBool false)).

(** The common body of [skip] and [seek] after the liveness check. *)
Definition seek_with (amount : pyval) (mode : string) : M pyval :=
  catch
    (response <- lift (_send_command (seek_command amount mode)) ;;
     success <- lift (of_outcome (and_success response)) ;;
     (if truthy success then
        lift sleep ;;
        lift (_send_command ao_reload_command) ;;
        ret tt
      else ret tt) ;;
     ret success)
    (fun _ => ret (PBool false)).

Definition skip (seconds : pyval) : M pyval :=
  running <- is_running ;;
  if negb running then ret (PBool false)
  else seek_with seconds "relative".

Definition seek (position : pyval) : M pyval :=
  running <- is_running ;;
  if negb running then ret (PBool false)
  else seek_with position "absolute".

Definition set_volume (level : Z) : M pyval :=
  running <- is_running ;;
  if negb running then ret (PBool false)
  else
    catch
      (success <- lift (_set_property "volume" (PInt level)) ;;
       (if truthy success then update (with_volume level) else ret tt) ;;
       ret success)
      (fun _ => ret (PBool false)).

Definition set_hdmi_output (output : string) : M bool :=
  catch
    (update (with_hdmi_output output) ;;
     running <- is_running ;;
     c <- self ;;
     match running, current_file c with
     | true, Some name =>
         if negb (String.eqb name "") then
           let current_pos := current_position c in
           let file_path := path_join E (media_dir c) name in
           stop ;;
           success <- play file_path ;;
           positive <-
             (if success then lift (of_outcome (py_gt_zero current_pos))
              else ret false) ;;
           (if positive then seek current_pos ;; ret tt else ret tt) ;;
           ret success
         else ret true
     | _, _ => ret true
     end)
    (fun _ => ret false).

Definition with_position (v : pyval) (s : Status) : Status :=
  {| st_state := st_state s; st_current_file := st_current_file s;
     st_position := v; st_duration := st_duration s;
     st_volume := st_volume s; st_is_paused := st_is_paused s |}.

Definition with_is_paused (v : pyval) (s : Status) : Status :=
  {| st_state := st_state s; st_current_file := st_current_file s;
     st_position := st_position s; st_duration := st_duration s;
     st_volume := st_volume s; st_is_paused := v |}.

Definition with_st_state (v : string) (s : Status) : Status :=
  {| st_state := v; st_current_file := st_current_file s;
     st_position := st_position s; st_duration := st_duration s;
     st_volume := st_volume s; st_is_paused := st_is_paused s |}.

Definition get_status : M Status :=
  c <- self ;;
  let status :=
    {| st_state := value (state c);
       st_current_file := current_file c;
       st_position := PFloat float_zero;
       st_duration := duration c;
       st_volume := volume c;
       st_is_paused := PBool false |} in
  running <- is_running ;;
  if running then
    pos <- lift (_get_property "time-pos") ;;
    status <-
      (if negb (is_none pos) then
         update (with_current_position pos) ;;
         ret (with_position pos status)
       else ret status) ;;
    is_paused <- lift (_get_property "pause") ;;
    if negb (is_none is_paused) then
      update (with_state (if truthy is_paused then PAUSED else PLAYING)) ;;
      c' <- self ;;
      ret (with_st_state (value (state c')) (with_is_paused is_paused status))
    else ret status
  else ret status.

(** [MPVController.__init__] *)
Definition init (media : string) (hw : bool) (hdmi : string) (audio : bool)
    : W Controller :=
  let c :=
    {| media_dir := media; hardware_accel := hw; hdmi_output := hdmi;
       audio_in_headless := audio; process := None; state := STOPPED;
       current_file := None; current_position := PFloat float_zero;
       duration := PFloat float_zero; volume := 100 |} in
  _cleanup_socket ;;
  ret c.

End Methods.

(** Symbolic execution unfolds the monad, never a method. *)
#[global] Arguments path_exists : simpl never.
#[global] Arguments socket_path_exists : simpl never.
#[global] Arguments socket_path_unlink : simpl never.
#[global] Arguments sleep : simpl never.
#[global] Arguments Popen : simpl never.
#[global] Arguments process_poll : simpl never.
#[global] Arguments send_signal : simpl never.
#[global] Arguments process_terminate : simpl never.
#[global] Arguments process_kill : simpl never.
#[global] Arguments process_wait : simpl never.
#[global] Arguments run_aplay : simpl never.
#[global] Arguments socket_connect : simpl never.
#[global] Arguments socket_sendall : simpl never.
#[global] Arguments socket_recv_response : simpl never.
#[global] Arguments _cleanup_socket : simpl never.
#[global] Arguments _cleanup_process : simpl never.
#[global] Arguments _detect_hdmi_audio : simpl never.
#[global] Arguments _get_mpv_command : simpl never.
#[global] Arguments _send_command : simpl never.
#[global] Arguments _get_property : simpl never.
#[global] Arguments _set_property : simpl never.
#[global] Arguments is_running : simpl never.
#[global] Arguments stop : simpl never.
#[global] Arguments play_launch : simpl never.
#[global] Arguments play_body : simpl never.
#[global] Arguments play : simpl never.
#[global] Arguments pause : simpl never.
#[global] Arguments resume : simpl never.
#[global] Arguments seek_with : simpl never.
#[global] Arguments skip : simpl never.
#[global] Arguments seek : simpl never.
#[global] Arguments set_volume : simpl never.
#[global] Arguments set_hdmi_output : simpl never.
#[global] Arguments get_status : simpl never.

(** * Input validation of [app.py] *)

(** The exceptions that leave a validator: [ValidationError], which the
    routes answer with status 400, and [OverflowError], which no validator
    catches. *)
Inductive app_exn : Type :=
| ValidationError (message : string)
| OverflowError.

Inductive result (A : Type) : Type :=
| Return (a : A)
| Throw (e : app_exn).
Arguments Throw {A} e.

(** How the builtin [int(x)] ends. *)
Inductive conversion : Type :=
| Converted (z : Z)
| TypeErr
| ValueErr
| OverflowErr.

(** The integer part of the finite float [(-1)^s * m * 2^e], towards zero. *)
Definition float_trunc (s : bool) (m : positive) (e : Z) : Z :=
  let magnitude := Z.shiftl (Z.pos m) e in
  if s then Z.opp magnitude else magnitude.

Definition VOLUME_MIN : Z := 0.
Definition VOLUME_MAX : Z := 150.

Section Validators.

(** [int(s)] on a string ([None] is [ValueError]) and [str(x)] as used by
    the f-strings of the messages. *)
Variable int_of_str : string -> option Z.
Variable py_str : pyval -> string.

(** [int(x)] *)
Definition py_int (x : pyval) : conversion :=
  match x with
  | PBool b => Converted (if b then 1 else 0)
  | PInt z => Converted z
  | PFloat f =>
      match f with
      | S754_zero _ => Converted 0
      | S754_finite s m e => Converted (float_trunc s m e)
      | S754_infinity _ => OverflowErr
      | S754_nan => ValueErr
      end
  | PStr s =>
      match int_of_str s with
      | Some z => Converted z
      | None => ValueErr
      end
  | PNone | PList _ | PDict _ => TypeErr
  end.

Definition validate_volume (raw : pyval) : result Z :=
  match py_int raw with
  | Converted vol =>
      if negb (Z.leb VOLUME_MIN vol && Z.leb vol VOLUME_MAX) then
        Throw (ValidationError
                 ("Volume must be between " ++ str_of_int VOLUME_MIN
                  ++ " and " ++ str_of_int VOLUME_MAX
                  ++ ", got " ++ str_of_int vol))
      else Return vol
  | TypeErr | ValueErr =>
      Throw (ValidationError ("Invalid volume value: " ++ py_str raw))
  | OverflowErr => Throw OverflowError
  end.

Definition valid_outputs : list string := ["auto"; "HDMI-A-1"; "HDMI-A-2"].

Definition validate_hdmi_output (output : pyval) : result pyval :=
  if negb (existsb (py_eq_str output) valid_outputs) then
    Throw (ValidationError
             ("Invalid HDMI output: " ++ py_str output
              ++ ". Must be one of ['auto', 'HDMI-A-1', 'HDMI-A-2']"))
  else Return output.

End Validators.

(** * Derived notions *)

(** ** Effects on the world *)

(** No IPC happened between two worlds. *)
Definition no_ipc (w w' : World) : Prop :=
  sent w' = sent w /\ connects w' = connects w.

(** No process was spawned between two worlds. *)
Definition no_spawn (w w' : World) : Prop := spawned w' = spawned w.

(** The record of signals only grows. *)
Definition keeps_signals (w w' : World) : Prop :=
  incl (signals w) (signals w').

(** What every step of the controller respects, IPC included. *)
Definition steady (w w' : World) : Prop :=
  no_spawn w w' /\ keeps_signals w w'.

(** Neither IPC nor spawn. *)
Definition silent (w w' : World) : Prop := no_ipc w w' /\ steady w w'.

(** The environment never refuses to look at the socket file or to delete
    it. *)
Definition socket_removable (E : Env) : Prop :=
  (forall t, stat_raises E socket_path t = None) /\
  (forall t, unlink_raises E t = None).

(** The existence check on [file_path] at instant [t] answers, and finds
    the file. *)
Definition found (E : Env) (file_path : string) (t : nat) : Prop :=
  stat_raises E file_path t = None /\ media_exists E file_path t = true.

(** Process creation on a command line ending in [file_path] failed. *)
Definition spawn_failed (E : Env) (file_path : string) : Prop :=
  exists cmd t e, last cmd "" = file_path /\ popen E cmd t = Raise e.

(** A signal sent at instant [t] through [deliver] reaches [p]: the child
    has not exited and the system call returns. *)
Definition reaches (E : Env) (deliver : proc -> nat -> option exn)
    (p : proc) (t : nat) : Prop :=
  poll E p t = None /\ deliver p t = None.

(** ** Controllers after a transition *)

(** What [stop] makes of a controller. *)
Definition stopped (c : Controller) : Controller :=
  with_duration (PFloat float_zero)
    (with_current_position (PFloat float_zero)
       (with_current_file None
          (with_state STOPPED (with_process None c)))).

(** What death detection in [is_running] makes of a controller. *)
Definition reaped (c : Controller) : Controller :=
  with_state STOPPED (with_process None c).

(** The controller as [play] finds it once the previous playback, if
    any, is out of the way: untouched when it held no process, stopped
    when its process was alive, reaped when its process was found dead. *)
Inductive settled (c : Controller) : Controller -> Prop :=
| settled_idle : process c = None -> settled c c
| settled_stop : settled c (stopped c)
| settled_reap : settled c (reaped c).

(** Exactly one process was started, on a command line ending in
    [file_path]. *)
Definition launched (file_path : string) (w w' : World) : Prop :=
  (exists cmd, last cmd "" = file_path /\ spawned w' = cmd :: spawned w) /\
  keeps_signals w w'.

(** The controller once playback of [file_path] has started as process
    [p]. *)
Definition playing_on (E : Env) (file_path : string) (p : proc)
    (c : Controller) : Controller :=
  with_current_file (Some (path_name E file_path))
    (with_state PLAYING (with_process (Some p) c)).

(** A process handle is held exactly in the states Playing and Paused. *)
Definition coherent (c : Controller) : Prop :=
  process c <> None <-> (state c = PLAYING \/ state c = PAUSED).

(** ** Calls and reachable states *)

(** The public operations, as a caller invokes them. *)
Inductive call : Type :=
| CallPlay (file_path : string)
| CallPause
| CallResume
| CallStop
| CallSkip (seconds : pyval)
| CallSeek (position : pyval)
| CallSetVolume (level : Z)
| CallSetHdmiOutput (output : string)
| CallIsRunning
| CallGetStatus.

(** The controller and world a call leaves behind, whatever it returns. *)
Definition perform (E : Env) (k : call) (s : Controller * World)
    : Controller * World :=
  match k with
  | CallPlay file_path => snd (play E file_path s)
  | CallPause => snd (pause E s)
  | CallResume => snd (resume E s)
  | CallStop => snd (stop E s)
  | CallSkip seconds => snd (skip E seconds s)
  | CallSeek position => snd (seek E position s)
  | CallSetVolume level => snd (set_volume E level s)
  | CallSetHdmiOutput output => snd (set_hdmi_output E output s)
  | CallIsRunning => snd (is_running E s)
  | CallGetStatus => snd (get_status E s)
  end.

(** States that a constructed controller can be in between two calls. *)
Inductive reachable (E : Env) : Controller * World -> Prop :=
| reach_init media hw hdmi audio w c w' :
    init E media hw hdmi audio w = (Ok c, w') -> reachable E (c, w')
| reach_call k s : reachable E s -> reachable E (perform E k s).

(** ** Audio device lines *)

(** A line names an HDMI device: it mentions the vendor driver or "hdmi",
    whatever the case, and is not an indented continuation line. *)
Definition is_hdmi_line (line : string) : bool :=
  (contains "vc4hdmi" (lower line) || contains "hdmi" (lower line))
  && negb (startswith "    " line).

Fixpoint has_nonspace (s : string) : bool :=
  match s with
  | EmptyString => false
  | String c rest => negb (is_space c) || has_nonspace rest
  end.

(** ** Weakest preconditions

    [wpW m Q w]: running [m] from [w] ends in an outcome and a world that
    satisfy [Q].  As the model is a total function this is both a safety
    and a termination statement.  [wpM] is the same for methods. *)

Definition wpW {A : Type} (m : W A) (Q : outcome A -> World -> Prop)
    (w : World) : Prop :=
  Q (fst (m w)) (snd (m w)).

Definition wpM {A : Type} (m : M A)
    (Q : outcome A -> Controller * World -> Prop)
    (s : Controller * World) : Prop :=
  Q (fst (m s)) (snd (m s)).

(** ** Concrete environments

    Small worlds on which the model can be run.  The peer of these worlds
    speaks a stub of the wire format: requests are rendered as the words
    of the command, the peer echoes the request line and the reply is
    decided from that echo. *)

Fixpoint words (l : list pyval) : string :=
  match l with
  | [] => ""
  | v :: rest =>
      (match v with
       | PStr s => s
       | PInt z => str_of_int z
       | PBool true => "true"
       | PBool false => "false"
       | _ => "_"
       end) ++ " " ++ words rest
  end.

Definition stub_dumps (v : pyval) : outcome string :=
  match v with
  | PDict [(_, PList l)] => Ok (words l)
  | _ => Raise TypeError
  end.

Fixpoint stub_name (p : string) : string :=
  match p with
  | EmptyString => EmptyString
  | String c rest =>
      if Ascii.eqb c "/" || contains "/" rest then stub_name rest else p
  end.

(** [file_ok]: do media files exist; [sock_ev]: life of the socket file;
    [polls]: what [poll] answers; [listing]: what [aplay -L] prints;
    [reply]: the parsed reply to a request. *)
Definition make_env (file_ok : bool) (sock_ev : nat -> fs_event)
    (polls : nat -> option Z) (listing : outcome string)
    (reply : string -> pyval) : Env :=
  {| stat_raises := fun _ _ => None;
     media_exists := fun _ _ => file_ok;
     socket_event := sock_ev;
     unlink_raises := fun _ => None;
     popen := fun _ _ => Ok 1;
     poll := fun _ t => polls t;
     terminate := fun _ _ => None;
     kill := fun _ _ => None;
     wait := fun _ _ _ => None;
     aplay := fun _ => listing;
     ipc_connect := fun _ => None;
     ipc_sendall := fun _ _ => None;
     ipc_reply := fun request _ => [Chunk (list_byte_of_string request)];
     json_dumps := stub_dumps;
     utf8_decode := fun b => Ok (string_of_list_byte b);
     json_loads := fun text => Ok (reply text);
     path_name := stub_name;
     path_join := fun d f => d ++ "/" ++ f |}.

Definition listing_pi : string :=
  "null" ++ String newline
  ("    Discard all samples" ++ String newline
  ("hdmi:CARD=vc4hdmi0,DEV=0" ++ String newline
  ("    vc4-hdmi-0, MAI PCM" ++ String newline ""))).

Definition reply_success (data : pyval) : pyval :=
  PDict [("data", data); ("error", PStr "success")].

(** Position 12.5 s, duration 120 s, not paused. *)
Definition stub_reply (request : string) : pyval :=
  if contains "time-pos" request
  then reply_success (PFloat (S754_finite false 25 (-1)))
  else if contains "duration" request
  then reply_success (PFloat (S754_finite false 120 0))
  else if contains "get_property pause" request
  then reply_success (PBool false)
  else reply_success PNone.

(** The player starts, binds its socket at once, stays alive and answers
    every command with success. *)
Definition env_ok : Env :=
  make_env true (fun _ => FsCreated) (fun _ => None) (Ok listing_pi)
    stub_reply.

(** The player starts but never binds its socket. *)
Definition env_no_socket : Env :=
  make_env true (fun _ => FsNothing) (fun _ => None) (Ok listing_pi)
    stub_reply.

(** No media file exists. *)
Definition env_no_file : Env :=
  make_env false (fun _ => FsCreated) (fun _ => None) (Ok listing_pi)
    stub_reply.

(** The player starts and plays, and exits with code 0 at instant 9, after
    the first [play] has returned. *)
Definition env_dies : Env :=
  make_env true (fun _ => FsCreated)
    (fun t => if Nat.ltb t 9 then None else Some 0%Z) (Ok listing_pi)
    stub_reply.

(** [E] with a [stat] that fails on [path]. *)
Definition failing_stat (path : string) (E : Env) : Env :=
  {| stat_raises := fun p _ => if String.eqb p path then Some OSError else None;
     media_exists := media_exists E;
     socket_event := socket_event E;
     unlink_raises := unlink_raises E;
     popen := popen E;
     poll := poll E;
     terminate := terminate E;
     kill := kill E;
     wait := wait E;
     aplay := aplay E;
     ipc_connect := ipc_connect E;
     ipc_sendall := ipc_sendall E;
     ipc_reply := ipc_reply E;
     json_dumps := json_dumps E;
     utf8_decode := utf8_decode E;
     json_loads := json_loads E;
     path_name := path_name E;
     path_join := path_join E |}.

(** [E] with a process creation that always fails. *)
Definition failing_popen (E : Env) : Env :=
  {| stat_raises := stat_raises E;
     media_exists := media_exists E;
     socket_event := socket_event E;
     unlink_raises := unlink_raises E;
     popen := fun _ _ => Raise OSError;
     poll := poll E;
     terminate := terminate E;
     kill := kill E;
     wait := wait E;
     aplay := aplay E;
     ipc_connect := ipc_connect E;
     ipc_sendall := ipc_sendall E;
     ipc_reply := ipc_reply E;
     json_dumps := json_dumps E;
     utf8_decode := utf8_decode E;
     json_loads := json_loads E;
     path_name := path_name E;
     path_join := path_join E |}.

(** [stat] on the socket path fails, as with a permission or I/O error. *)
Definition env_denied : Env := failing_stat socket_path env_ok.

(** [stat] on one media path fails, as with an over-long name. *)
Definition env_long_name : Env := failing_stat "/media/long.mp4" env_ok.

(** The player binary cannot be started. *)
Definition env_no_exec : Env := failing_popen env_ok.

Definition world0 : World :=
  {| clock := 0; sock := false; sent := []; connects := 0;
     spawned := []; signals := [] |}.

(** A freshly constructed controller. *)
Definition fresh : Controller :=
  {| media_dir := "/media"; hardware_accel := true; hdmi_output := "auto";
     audio_in_headless := true; process := None; state := STOPPED;
     current_file := None; current_position := PFloat float_zero;
     duration := PFloat float_zero; volume := 100 |}.

(** A listing without any HDMI device. *)
Definition listing_plain : string :=
  "null" ++ String newline
  ("    Discard all samples" ++ String newline
  ("default" ++ String newline
  ("    Playback/recording through the PulseAudio sound server"
   ++ String newline ""))).

Definition env_plain : Env :=
  make_env true (fun _ => FsCreated) (fun _ => None) (Ok listing_plain)
    stub_reply.

(** The enumeration tool is missing or times out. *)
Definition env_no_aplay : Env :=
  make_env true (fun _ => FsCreated) (fun _ => None) (Raise TimeoutExpired)
    stub_reply.

(** The peer answers every command with a JSON array: the reply is
    truthy and has no [get]. *)
Definition env_garbled : Env :=
  make_env true (fun _ => FsCreated) (fun _ => None) (Ok listing_pi)
    (fun _ => PList [PInt 1]).

(** The peer answers every command with an error reply. *)
Definition env_unavailable : Env :=
  make_env true (fun _ => FsCreated) (fun _ => None) (Ok listing_pi)
    (fun _ => PDict [("error", PStr "property unavailable")]).

(** The command line with which these worlds launch [/media/a.mp4]. *)
Definition command_a : list string :=
  [ "mpv"; "--no-terminal"; "--really-quiet";
    "--input-ipc-server=/tmp/mpv-socket"; "--idle=yes"; "--force-window=no";
    "--keep-open=yes"; "--volume=100"; "--vo=gpu"; "--gpu-context=drm";
    "--drm-connector="; "--hwdec=auto"; "--hwdec-codecs=all";
    "--audio-device=alsa/hdmi:CARD=vc4hdmi0,DEV=0";
    "--video-output-levels=limited"; "--video-sync=display-resample";
    "/media/a.mp4" ].

(** A request line of the stub wire format. *)
Definition request (text : string) : string :=
  text ++ " " ++ String newline "".

(** The controller right after [play("/media/a.mp4")] succeeded. *)
Definition playing_a : Controller :=
  {| media_dir := "/media"; hardware_accel := true; hdmi_output := "auto";
     audio_in_headless := true; process := Some 1; state := PLAYING;
     current_file := Some "a.mp4"; current_position := PFloat float_zero;
     duration := PFloat (S754_finite false 120 0); volume := 100 |}.

(** Controller and world after [play("/media/a.mp4")] on a fresh
    controller; in [env_dies] the player is about to be found dead. *)
Definition orphaned : Controller * World :=
  (playing_a,
   {| clock := 9; sock := true; sent := [request "get_property duration"];
      connects := 1; spawned := [command_a]; signals := [] |}).

(** After [play] and [pause]. *)
Definition paused : Controller * World :=
  (with_state PAUSED playing_a,
   {| clock := 18; sock := true;
      sent := [request "set_property pause true";
               request "get_property pause";
               request "get_property duration"];
      connects := 3; spawned := [command_a]; signals := [] |}).

(** After [play] and [set_volume(42)]. *)
Definition loud : Controller * World :=
  (with_volume 42 playing_a,
   {| clock := 14; sock := true;
      sent := [request "set_property volume 42";
               request "get_property duration"];
      connects := 2; spawned := [command_a]; signals := [] |}).

(** * Notions for the further properties *)

(** A relation between controllers that holds across every assignment to
    [process], [state], [current_file], [current_position] and
    [duration]. *)
Record frame (R : Controller -> Controller -> Prop) : Prop := {
  frame_refl : forall c, R c c;
  frame_trans : forall c1 c2 c3, R c1 c2 -> R c2 c3 -> R c1 c3;
  frame_process : forall p c, R c (with_process p c);
  frame_state : forall s c, R c (with_state s c);
  frame_current_file : forall f c, R c (with_current_file f c);
  frame_current_position : forall v c, R c (with_current_position v c);
  frame_duration : forall v c, R c (with_duration v c)
}.

(** The constructor's settings, the cached selector and the cached volume
    are the same. *)
Definition evolves (c c' : Controller) : Prop :=
  media_dir c' = media_dir c /\
  hardware_accel c' = hardware_accel c /\
  audio_in_headless c' = audio_in_headless c /\
  hdmi_output c' = hdmi_output c /\
  volume c' = volume c.

(** Nothing but [process] and [state] differs. *)
Definition same_media (c c' : Controller) : Prop :=
  evolves c c' /\
  current_file c' = current_file c /\
  current_position c' = current_position c /\
  duration c' = duration c.

(** The player reported success: the reply is a non-empty dict whose
    [error] entry is the string "success". *)
Definition reply_ok (reply : pyval) : bool :=
  match reply with
  | PDict d =>
      match d with
      | [] => false
      | _ :: _ => py_eq_str (dict_get d "error") "success"
      end
  | _ => false
  end.

(** The argument list of a launch, written out: [audio] is the detected
    audio device, if one is passed. *)
Definition command_line (c : Controller) (audio : option string)
    (file_path : string) : list string :=
  List.app
    [ "mpv"; "--no-terminal"; "--really-quiet";
      "--input-ipc-server=/tmp/mpv-socket"; "--idle=yes"; "--force-window=no";
      "--keep-open=yes"; "--volume=" ++ str_of_int (volume c);
      "--vo=gpu"; "--gpu-context=drm";
      "--drm-connector=" ++
        (if String.eqb (hdmi_output c) "auto" then "" else hdmi_output c) ]
    (List.app
       (if hardware_accel c then ["--hwdec=auto"; "--hwdec-codecs=all"]
        else [])
       (List.app
          (match audio with
           | Some d => ["--audio-device=" ++ d]
           | None => []
           end)
          [ "--video-output-levels=limited"; "--video-sync=display-resample";
            file_path ])).

(** The call returned, whatever its value. *)
Definition returned {A : Type} (r : outcome A) : bool :=
  match r with Ok _ => true | Raise _ => false end.

(** Decidable form of [reaches]. *)
Definition reachesb (E : Env) (deliver : proc -> nat -> option exn)
    (p : proc) (t : nat) : bool :=
  match poll E p t, deliver p t with
  | None, None => true
  | _, _ => false
  end.

(** [terminate] at instant [t] returned: the child had exited, or the
    signal went through. *)
Definition terminate_returns (E : Env) (p : proc) (t : nat) : Prop :=
  poll E p t = None -> terminate E p t = None.

(** Between [w] and [w'] exactly one process was started, with the
    argument list that the settings of [c] give for [file_path]; a process
    that [c] held got SIGTERM if the signal sent at instant [t] reached
    it. *)
Definition relaunched (E : Env) (c : Controller) (file_path : string)
    (t : nat) (w w' : World) : Prop :=
  (exists audio,
     (audio_in_headless c = false -> audio = None) /\
     spawned w' = command_line c audio file_path :: spawned w) /\
  (forall p, process c = Some p -> reaches E (terminate E) p t ->
             In (p, SIGTERM) (signals w')) /\
  keeps_signals w w'.

(** Between [w] and [w'] process creation was tried, with the argument
    list that the settings of [c] give for [file_path], and failed: no
    process was started.  A process that [c] held got SIGTERM if the signal
    sent at instant [t] reached it. *)
Definition launch_failed (E : Env) (c : Controller) (file_path : string)
    (t : nat) (w w' : World) : Prop :=
  (exists audio t' e,
     (audio_in_headless c = false -> audio = None) /\
     popen E (command_line c audio file_path) t' = Raise e) /\
  no_spawn w w' /\
  (forall p, process c = Some p -> reaches E (terminate E) p t ->
             In (p, SIGTERM) (signals w')) /\
  keeps_signals w w'.

(** A chunk that is neither the end of the stream nor the end of a
    reply. *)
Definition partial_chunk (chunk : list byte) : Prop :=
  chunk <> [] /\ existsb (Byte.eqb x0a) chunk = false.

(** Controller and world once [env_ok] has constructed the controller
    from [world0], and once it has then played [/media/a.mp4]. *)
Definition booted : Controller * World :=
  (fresh,
   {| clock := 2; sock := false; sent := []; connects := 0;
      spawned := []; signals := [] |}).

Definition started : Controller * World :=
  (playing_a,
   {| clock := 11; sock := true; sent := [request "get_property duration"];
      connects := 1; spawned := [command_a]; signals := [] |}).

(** * Properties *)

(** ** Effects on the world *)

Lemma no_ipc_refl w : no_ipc w w.
Proof. split; reflexivity. Qed.

Lemma no_ipc_trans w1 w2 w3 : no_ipc w1 w2 -> no_ipc w2 w3 -> no_ipc w1 w3.
Proof. unfold no_ipc. intros [? ?] [? ?]. split; congruence. Qed.

Lemma steady_refl w : steady w w.
Proof. split; [reflexivity | apply incl_refl]. Qed.

Lemma steady_trans w1 w2 w3 : steady w1 w2 -> steady w2 w3 -> steady w1 w3.
Proof.
  unfold steady, no_spawn, keeps_signals. intros [? ?] [? ?].
  split; [congruence | eapply incl_tran; eassumption].
Qed.

Lemma silent_refl w : silent w w.
Proof. split; [apply no_ipc_refl | apply steady_refl]. Qed.

Lemma silent_trans w1 w2 w3 : silent w1 w2 -> silent w2 w3 -> silent w1 w3.
Proof.
  intros [? ?] [? ?].
  split; [eapply no_ipc_trans | eapply steady_trans]; eauto.
Qed.

Lemma silent_steady w w' : silent w w' -> steady w w'.
Proof. intros [_ H]. exact H. Qed.

Lemma silent_in_signals w w' x :
  silent w w' -> In x (signals w) -> In x (signals w').
Proof. intros (_ & _ & H). apply H. Qed.

(** Settles a relation between a world and a primitive update of it. *)
Ltac world_step :=
  repeat split; cbn;
  try reflexivity; try apply incl_refl; try (apply incl_tl; apply incl_refl).

Section WpRules.

Lemma wpW_ret A (a : A) Q w : Q (Ok a) w -> wpW (ret a) Q w.
Proof. auto. Qed.

Lemma wpW_raise A (e : exn) (Q : outcome A -> World -> Prop) w :
  Q (Raise e) w -> wpW (raise e) Q w.
Proof. auto. Qed.

Lemma wpW_of_outcome A (r : outcome A) Q w : Q r w -> wpW (of_outcome r) Q w.
Proof. auto. Qed.

Lemma wpW_bind A B (m : W A) (k : A -> W B) Q w :
  wpW m (fun r w' =>
           match r with
           | Ok a => wpW (k a) Q w'
           | Raise e => Q (Raise e) w'
           end) w ->
  wpW (bind m k) Q w.
Proof.
  unfold wpW. cbn. destruct (m w) as [[a | e] w1]; cbn; auto.
Qed.

Lemma wpW_catch A (m : W A) (h : exn -> W A) Q w :
  wpW m (fun r w' =>
           match r with
           | Ok a => Q (Ok a) w'
           | Raise e => wpW (h e) Q w'
           end) w ->
  wpW (catch m h) Q w.
Proof.
  unfold wpW. cbn. destruct (m w) as [[a | e] w1]; cbn; auto.
Qed.

Lemma wpM_ret A (a : A) Q s : Q (Ok a) s -> wpM (ret a) Q s.
Proof. auto. Qed.

Lemma wpM_raise A (e : exn) (Q : outcome A -> _ -> Prop) s :
  Q (Raise e) s -> wpM (raise e) Q s.
Proof. auto. Qed.

Lemma wpM_self Q s : Q (Ok (fst s)) s -> wpM self Q s.
Proof. auto. Qed.

Lemma wpM_update f Q s : Q (Ok tt) (f (fst s), snd s) -> wpM (update f) Q s.
Proof. auto. Qed.

Lemma wpM_lift A (m : W A) Q s :
  wpW m (fun r w' => Q r (fst s, w')) (snd s) -> wpM (lift m) Q s.
Proof.
  unfold wpW, wpM, lift. destruct (m (snd s)); auto.
Qed.

Lemma wpM_bind A B (m : M A) (k : A -> M B) Q s :
  wpM m (fun r s' =>
           match r with
           | Ok a => wpM (k a) Q s'
           | Raise e => Q (Raise e) s'
           end) s ->
  wpM (bind m k) Q s.
Proof.
  unfold wpM. cbn. destruct (m s) as [[a | e] s1]; cbn; auto.
Qed.

Lemma wpM_catch A (m : M A) (h : exn -> M A) Q s :
  wpM m (fun r s' =>
           match r with
           | Ok a => Q (Ok a) s'
           | Raise e => wpM (h e) Q s'
           end) s ->
  wpM (catch m h) Q s.
Proof.
  unfold wpM. cbn. destruct (m s) as [[a | e] s1]; cbn; auto.
Qed.

Lemma wpM_finally A (m : M A) (f : M unit) Q s :
  wpM m (fun r s' =>
           wpM f (fun r' s'' =>
                    match r' with
                    | Ok _ => Q r s''
                    | Raise e => Q (Raise e) s''
                    end) s') s ->
  wpM (finally_ m f) Q s.
Proof.
  unfold wpM, finally_. destruct (m s) as [r s1]. cbn.
  destruct (f s1) as [[u | e] s2]; cbn; auto.
Qed.

End WpRules.

(** One step of symbolic execution. *)
Ltac wp_step :=
  lazymatch goal with
  | |- wpW (bind _ _) _ _ => apply wpW_bind
  | |- wpW (ret _) _ _ => apply wpW_ret
  | |- wpW (raise _) _ _ => apply wpW_raise
  | |- wpW (catch _ _) _ _ => apply wpW_catch
  | |- wpW (of_outcome _) _ _ => apply wpW_of_outcome
  | |- wpW (except_ _ _ _) _ _ => unfold except_
  | |- wpW (if negb ?b then _ else _) _ _ => destruct b eqn:?; cbn [negb]
  | |- wpW (if ?b then _ else _) _ _ => destruct b eqn:?
  | |- wpW (match ?x with _ => _ end) _ _ => destruct x eqn:?
  | |- wpM (bind _ _) _ _ => apply wpM_bind
  | |- wpM (ret _) _ _ => apply wpM_ret
  | |- wpM (raise _) _ _ => apply wpM_raise
  | |- wpM (catch _ _) _ _ => apply wpM_catch
  | |- wpM (finally_ _ _) _ _ => apply wpM_finally
  | |- wpM (lift _) _ _ => apply wpM_lift; cbn [fst snd]
  | |- wpM self _ _ => apply wpM_self; cbn [fst snd]
  | |- wpM (update _) _ _ => apply wpM_update; cbn [fst snd]
  | |- wpM (except_ _ _ _) _ _ => unfold except_
  | |- wpM (if negb ?b then _ else _) _ _ => destruct b eqn:?; cbn [negb]
  | |- wpM (if ?b then _ else _) _ _ => destruct b eqn:?
  | |- wpM (match ?x with _ => _ end) _ _ => destruct x eqn:?
  | |- match ?x with _ => _ end => destruct x eqn:?
  end.

Ltac wp_steps := repeat (first [progress cbn [negb] | wp_step]).

(** ** Specifications of the helpers *)

Lemma with_process_same c : with_process (process c) c = c.
Proof. destruct c; reflexivity. Qed.

Section HelperSpecs.

Variable E : Env.

Lemma observe_socket_clock w : clock (observe_socket E w) = clock w.
Proof.
  unfold observe_socket. destruct (socket_event E (clock w)); reflexivity.
Qed.

Lemma observe_socket_silent w : silent w (observe_socket E w).
Proof.
  unfold observe_socket. destruct (socket_event E (clock w)); world_step.
Qed.

Lemma tick_silent w : silent w (tick w).
Proof. world_step. Qed.

Lemma set_sock_silent b w : silent w (set_sock b w).
Proof. world_step. Qed.

Lemma log_signal_silent p sg w : silent w (log_signal p sg w).
Proof. world_step. Qed.

Lemma wp_socket_path_exists Q w :
  (forall e w', stat_raises E socket_path (clock w) = Some e ->
                silent w w' -> w' = tick (observe_socket E w) ->
                Q (Raise e) w') ->
  (forall w', stat_raises E socket_path (clock w) = None ->
              silent w w' -> w' = tick (observe_socket E w) ->
              Q (Ok (sock (observe_socket E w))) w') ->
  wpW (socket_path_exists E) Q w.
Proof.
  intros Hraise Hok. unfold wpW, socket_path_exists. cbn.
  assert (Hs : silent w (tick (observe_socket E w)))
    by (eapply silent_trans; [apply observe_socket_silent | apply tick_silent]).
  destruct (stat_raises E socket_path (clock w)) as [e |] eqn:Hstat.
  - apply Hraise; auto.
  - apply Hok; auto.
Qed.

Lemma wp_socket_path_unlink Q w :
  (forall r w', silent w w' ->
                (unlink_raises E (clock w) = None -> sock w' = false) ->
                Q r w') ->
  wpW (socket_path_unlink E) Q w.
Proof.
  intros H. unfold wpW, socket_path_unlink.
  destruct (unlink_raises E (clock w)); cbn; apply H;
    try discriminate; try reflexivity.
  - apply tick_silent.
  - eapply silent_trans; [apply set_sock_silent | apply tick_silent].
Qed.

Lemma wp_sleep Q w :
  (forall w', silent w w' -> Q (Ok tt) w') -> wpW sleep Q w.
Proof. intros H. apply H. apply tick_silent. Qed.

Lemma wp_process_poll p Q w :
  Q (Ok (poll E p (clock w))) (tick w) -> wpW (process_poll E p) Q w.
Proof. auto. Qed.

(** A signal is delivered exactly when it reaches the child; no other
    record of the world changes. *)
Lemma wp_send_signal deliver sg p Q w :
  (forall r w', silent w w' ->
                (reaches E deliver p (clock w) ->
                 r = Ok tt /\ In (p, sg) (signals w')) ->
                (forall x, In x (signals w') ->
                           In x (signals w) \/
                           x = (p, sg) /\ reaches E deliver p (clock w)) ->
                Q r w') ->
  wpW (send_signal E deliver sg p) Q w.
Proof.
  intros H. unfold wpW, send_signal.
  destruct (poll E p (clock w)) as [rc |] eqn:Hpoll; cbn.
  - apply H; [apply tick_silent | intros [? _]; congruence | auto].
  - destruct (deliver p (clock w)) as [e |] eqn:Hd; cbn.
    + apply H; [apply tick_silent | intros [_ ?]; congruence | auto].
    + apply H.
      * eapply silent_trans; [apply log_signal_silent | apply tick_silent].
      * intros _. split; [reflexivity | left; reflexivity].
      * intros x [<- | Hx]; [right; split; [reflexivity | split; assumption]
                            | left; exact Hx].
Qed.

Lemma wp_process_terminate p Q w :
  (forall r w', silent w w' ->
                (reaches E (terminate E) p (clock w) ->
                 r = Ok tt /\ In (p, SIGTERM) (signals w')) ->
                Q r w') ->
  wpW (process_terminate E p) Q w.
Proof.
  intros H. unfold process_terminate. apply wp_send_signal.
  intros r w' Hs Hr _. apply H; assumption.
Qed.

Lemma wp_process_kill p Q w :
  (forall r w', silent w w' -> Q r w') -> wpW (process_kill E p) Q w.
Proof.
  intros H. unfold process_kill. apply wp_send_signal.
  intros r w' Hs _ _. apply H; assumption.
Qed.

Lemma wp_process_wait p t Q w :
  (forall r w', silent w w' -> Q r w') -> wpW (process_wait E p t) Q w.
Proof. intros H. apply H. apply tick_silent. Qed.

Lemma wp_run_aplay Q w :
  (forall w', silent w w' -> Q (aplay E (clock w)) w') -> wpW (run_aplay E) Q w.
Proof. intros H. apply H. apply tick_silent. Qed.

(** [_cleanup_socket] absorbs every failure and performs neither IPC nor
    spawn; unless the existence check or the deletion fails, the socket
    file is gone afterwards. *)
Lemma wp_cleanup_socket Q w :
  (forall w', silent w w' -> (socket_removable E -> sock w' = false) ->
              Q (Ok tt) w') ->
  wpW (_cleanup_socket E) Q w.
Proof.
  intros H. unfold _cleanup_socket. wp_steps.
  apply wp_socket_path_exists.
  - intros e w1 Hstat H1 _. wp_steps.
    apply H; [assumption |]. intros [Hst _]. rewrite Hst in Hstat.
    discriminate.
  - intros w1 _ H1 Hw1. wp_steps.
    + apply wp_socket_path_unlink. intros [[] | e] w2 H2 Hs; wp_steps;
        (apply H; [eapply silent_trans; eauto |]);
        intros [_ Hu]; apply Hs, Hu.
    + apply H; [assumption |]. intros _. subst w1. assumption.
Qed.

(** [_cleanup_process] never raises, always forgets the process handle and
    performs neither IPC nor spawn; a process that was held has got SIGTERM
    if the signal reached it. *)
Lemma wp_cleanup_process Q c w :
  (forall w', silent w w' ->
              (forall p, process c = Some p ->
                         reaches E (terminate E) p (clock w) ->
                         In (p, SIGTERM) (signals w')) ->
              (socket_removable E -> sock w' = false) ->
              Q (Ok tt) (with_process None c, w')) ->
  wpM (_cleanup_process E) Q (c, w).
Proof.
  intros H. unfold _cleanup_process. wp_steps.
  - assert (Hfin : forall w1, silent w w1 ->
                     (reaches E (terminate E) p (clock w) ->
                      In (p, SIGTERM) (signals w1)) ->
                     wpW (_cleanup_socket E)
                       (fun r w' => Q r (with_process None c, w')) w1).
    { intros w1 H1 Hin. apply wp_cleanup_socket. intros w2 H2 Hsock.
      apply H; [eauto using silent_trans | | assumption].
      intros p' Hp' Hreach. injection Hp' as <-.
      eapply silent_in_signals; eauto. }
    apply wp_process_terminate. intros r w1 H1 Hin0.
    assert (Hin : reaches E (terminate E) p (clock w) ->
                  In (p, SIGTERM) (signals w1))
      by (intros Hr; apply Hin0; exact Hr).
    clear Hin0. destruct r as [[] | e]; wp_steps.
    + apply wp_process_wait. intros [[] | e] w2 H2; wp_steps.
      * apply Hfin; eauto using silent_trans, silent_in_signals.
      * apply wp_process_kill. intros [[] | e'] w3 H3; wp_steps.
        -- apply wp_process_wait.
           intros [[] | e''] w4 H4; wp_steps;
             apply Hfin; eauto 8 using silent_trans, silent_in_signals.
        -- apply Hfin; eauto 8 using silent_trans, silent_in_signals.
      * apply Hfin; eauto using silent_trans, silent_in_signals.
    + apply Hfin; eauto using silent_trans, silent_in_signals.
  - apply wp_cleanup_socket. intros w1 H1 Hsock.
    replace c with (with_process None c) at 1
      by (rewrite <- Heqo; apply with_process_same).
    apply H; [assumption | | assumption].
    intros p Hp. congruence.
Qed.

End HelperSpecs.

(** ** Liveness check and stop *)

Lemma stopped_stopped c : stopped (stopped c) = stopped c.
Proof. reflexivity. Qed.

Section LivenessSpecs.

Variable E : Env.

Lemma wp_is_running Q c w :
  (process c = None -> Q (Ok false) (c, w)) ->
  (forall p w', process c = Some p -> poll E p (clock w) = None ->
                w' = tick w -> Q (Ok true) (c, w')) ->
  (forall p rc w', process c = Some p -> poll E p (clock w) = Some rc ->
                   silent w w' -> Q (Ok false) (reaped c, w')) ->
  wpM (is_running E) Q (c, w).
Proof.
  intros Hnone Halive Hdead. unfold is_running. wp_steps.
  - apply wp_process_poll.
    destruct (poll E p (clock w)) as [rc |] eqn:Hpoll; wp_steps.
    + apply wp_cleanup_process. intros w2 H2 _ _. wp_steps.
      eapply Hdead; eauto using silent_trans, tick_silent.
    + eapply Halive; eauto.
  - apply Hnone. reflexivity.
Qed.

Lemma wp_stop Q c w :
  (forall w', silent w w' -> Q (Ok true) (stopped c, w')) ->
  wpM (stop E) Q (c, w).
Proof.
  intros H. unfold stop. wp_steps.
  apply wp_cleanup_process. intros w1 H1 _ _. wp_steps.
  apply H. assumption.
Qed.

Lemma stop_run c w :
  exists w', stop E (c, w) = (Ok true, (stopped c, w')) /\ silent w w'.
Proof.
  pose proof (@wp_stop
    (fun r s' => r = Ok true /\ fst s' = stopped c /\ silent w (snd s')) c w)
    as H.
  unfold wpM in H. destruct (stop E (c, w)) as [r [c' w']]. cbn in H.
  destruct H as (-> & -> & Hs); [intros; cbn; auto |].
  exists w'. auto.
Qed.

(** [is_running] performs neither IPC nor spawn, whatever it answers. *)
Lemma is_running_silent c w :
  silent w (snd (snd (is_running E (c, w)))).
Proof.
  apply (@wp_is_running (fun _ s' => silent w (snd s'))); cbn; intros;
    subst; auto using silent_refl, tick_silent.
Qed.

End LivenessSpecs.

Example init_fresh :
  fst (init env_ok "/media" true "auto" true world0) = Ok fresh.
Proof. reflexivity. Qed.

Example play_ok_run :
  play env_ok "/media/a.mp4" (fresh, world0) = (Ok true, orphaned).
Proof. vm_compute. reflexivity. Qed.

Example orphaned_reached :
  perform env_dies (CallPlay "/media/a.mp4") (fresh, world0) = orphaned.
Proof. vm_compute. reflexivity. Qed.

Example paused_reached :
  perform env_ok CallPause
    (perform env_ok (CallPlay "/media/a.mp4") (fresh, world0)) = paused.
Proof. vm_compute. reflexivity. Qed.

Example loud_reached :
  perform env_ok (CallSetVolume 42)
    (perform env_ok (CallPlay "/media/a.mp4") (fresh, world0)) = loud.
Proof. vm_compute. reflexivity. Qed.

(** The end-to-end scenario of the specification, on the cooperative
    world: play, status, skip with audio resync, pause, stop. *)
Example scenario :
  let s0 := (fresh, world0) in
  let '(r1, s1) := play env_ok "/media/a.mp4" s0 in
  let '(r2, s2) := get_status env_ok s1 in
  let '(r3, s3) := skip env_ok (PInt 30) s2 in
  let '(r4, s4) := pause env_ok s3 in
  let '(r5, s5) := stop env_ok s4 in
  r1 = Ok true /\
  match r2 with Ok st => st_state st = "playing" | Raise _ => False end /\
  r3 = Ok (PBool true) /\
  firstn 2 (sent (snd s3)) = [request "ao-reload"; request "seek 30 relative"] /\
  r4 = Ok (PBool true) /\ state (fst s4) = PAUSED /\
  r5 = Ok true /\ state (fst s5) = STOPPED /\ current_file (fst s5) = None.
Proof. vm_compute. repeat split. Qed.

(** Death detection moves to Stopped and keeps the cached file and
    duration. *)
Example reap_keeps_file :
  let c := fst (snd (is_running env_dies orphaned)) in
  state c = STOPPED /\ process c = None /\
  current_file c = Some "a.mp4" /\
  duration c = PFloat (S754_finite false 120 0).
Proof. vm_compute. repeat split. Qed.

Example recv_until_newline :
  recv_loop [Chunk [x61]; Chunk [x62; x0a]; Chunk [x63]] [] = Ok [x61; x62; x0a].
Proof. reflexivity. Qed.

Example recv_until_close :
  recv_loop [Chunk [x61]; Chunk []; Chunk [x62]] [] = Ok [x61].
Proof. reflexivity. Qed.

Example recv_timeout :
  recv_loop [Chunk [x61]; RecvFail SocketTimeout] [] = Raise SocketTimeout.
Proof. reflexivity. Qed.

Example strip_device : strip "  hdmi:CARD=vc4hdmi0 " = "hdmi:CARD=vc4hdmi0".
Proof. reflexivity. Qed.

Example split_listing :
  split_lines ("a" ++ String newline ("b" ++ String newline "")) = ["a"; "b"; ""].
Proof. reflexivity. Qed.

(** ** Stopping *)

(** C5: [stop()] is idempotent.  From every controller state, with or
    without a running process, [stop()] returns true and leaves the state
    Stopped, no current file, position 0.0, duration 0.0 and no process
    handle; a second [stop()] returns true again and leaves the controller
    exactly as the first one left it. *)
Theorem stop_idempotent (E : Env) (c : Controller) (w : World) :
  exists c1 w1,
    stop E (c, w) = (Ok true, (c1, w1)) /\
    state c1 = STOPPED /\
    current_file c1 = None /\
    current_position c1 = PFloat float_zero /\
    duration c1 = PFloat float_zero /\
    process c1 = None /\
    forall w2, exists w3, stop E (c1, w2) = (Ok true, (c1, w3)).
Proof.
  destruct (stop_run E c w) as (w1 & Hrun & _).
  exists (stopped c), w1. repeat split; try assumption.
  intros w2. destruct (stop_run E (stopped c) w2) as (w3 & Hrun2 & _).
  exists w3. rewrite stopped_stopped in Hrun2. assumption.
Qed.

(** ** Operations on a player that is not running *)

Section NotRunning.

Variable E : Env.

Lemma bind_is_running_false A (k : bool -> M A) c w c1 w1 :
  is_running E (c, w) = (Ok false, (c1, w1)) ->
  bind (is_running E) k (c, w) = k false (c1, w1).
Proof.
  intros H. change (bind (is_running E) k (c, w)) with
    (match is_running E (c, w) with
     | (Ok a, s') => k a s'
     | (Raise e, s') => (Raise e, s')
     end).
  rewrite H. reflexivity.
Qed.

End NotRunning.

(** C4: whenever [is_running()] answers false, each of [skip], [seek],
    [pause], [resume] and [set_volume] returns false, leaves the controller
    as the liveness check left it, and performs no IPC: no socket is opened
    and no command is written. *)
Theorem not_running_refuses (E : Env) (c c1 : Controller) (w w1 : World)
    (amount : pyval) (level : Z) :
  is_running E (c, w) = (Ok false, (c1, w1)) ->
  skip E amount (c, w) = (Ok (PBool false), (c1, w1)) /\
  seek E amount (c, w) = (Ok (PBool false), (c1, w1)) /\
  pause E (c, w) = (Ok (PBool false), (c1, w1)) /\
  resume E (c, w) = (Ok (PBool false), (c1, w1)) /\
  set_volume E level (c, w) = (Ok (PBool false), (c1, w1)) /\
  sent w1 = sent w /\ connects w1 = connects w.
Proof.
  intros Hrun.
  unfold skip, seek, pause, resume, set_volume.
  rewrite !(@bind_is_running_false E _ _ _ _ _ _ Hrun). cbn [negb].
  repeat split; try reflexivity;
    pose proof (is_running_silent E c w) as Hs; rewrite Hrun in Hs;
    apply Hs.
Qed.

Lemma not_running_refuses_witness :
  exists c1 w1,
    skip env_dies (PInt 30) orphaned = (Ok (PBool false), (c1, w1)) /\
    state c1 = STOPPED /\
    sent w1 = sent (snd orphaned).
Proof.
  pose (r := is_running env_dies orphaned). vm_compute in r.
  exists (fst (snd r)), (snd (snd r)).
  destruct (@not_running_refuses env_dies (fst orphaned) (fst (snd r))
              (snd orphaned) (snd (snd r)) (PInt 30) 0%Z)
    as (Hskip & _ & _ & _ & _ & Hsent & _).
  - vm_compute. reflexivity.
  - split; [exact Hskip |]. split; [reflexivity | exact Hsent].
Defined.

(** ** Status queries *)

Section StatusFacts.

Variable E : Env.

Lemma lift_run A (m : W A) c w r w' :
  m w = (r, w') -> lift m (c, w) = (r, (c, w')).
Proof. unfold lift. cbn. intros ->. reflexivity. Qed.

Lemma is_running_true_same c w c1 w1 :
  is_running E (c, w) = (Ok true, (c1, w1)) -> c1 = c /\ process c <> None.
Proof.
  intros Hrun.
  pose proof (@wp_is_running E
    (fun r s' => r = Ok true -> fst s' = c /\ process c <> None) c w) as H.
  unfold wpM in H. rewrite Hrun in H. cbn in H.
  apply H; try discriminate; try reflexivity.
  intros p w' Hp _ _ _. split; [reflexivity | congruence].
Qed.

Lemma is_running_dead c w p rc :
  process c = Some p -> poll E p (clock w) = Some rc ->
  exists w', is_running E (c, w) = (Ok false, (reaped c, w')) /\ silent w w'.
Proof.
  intros Hp Hpoll.
  pose proof (@wp_is_running E
    (fun r s' => r = Ok false /\ fst s' = reaped c /\ silent w (snd s')) c w)
    as H.
  unfold wpM in H.
  destruct (is_running E (c, w)) as [r [c1 w1]]. cbn in H.
  destruct H as (-> & -> & Hs); try congruence.
  - intros. cbn. auto.
  - exists w1. auto.
Qed.

Lemma is_running_none c w :
  process c = None -> is_running E (c, w) = (Ok false, (c, w)).
Proof.
  intros Hp. unfold is_running. cbn. rewrite Hp. reflexivity.
Qed.

End StatusFacts.

(** C10: [get_status()] fills the snapshot's state from the cached state
    before the liveness check.  When the process handle is set but the
    process has already exited, the first call returns the stale cached
    state with position 0.0 and is_paused False, while it drops the handle
    and sets the controller state to Stopped; any later call reports
    "stopped". *)
Theorem get_status_stale_after_death (E : Env) (c : Controller) (w : World)
    (p : proc) (rc : Z) :
  process c = Some p ->
  poll E p (clock w) = Some rc ->
  exists st c1 w1,
    get_status E (c, w) = (Ok st, (c1, w1)) /\
    st_state st = value (state c) /\
    st_position st = PFloat float_zero /\
    st_is_paused st = PBool false /\
    state c1 = STOPPED /\
    process c1 = None /\
    forall w2, exists st2,
      get_status E (c1, w2) = (Ok st2, (c1, w2)) /\
      st_state st2 = "stopped".
Proof.
  intros Hp Hpoll.
  destruct (is_running_dead E c w Hp Hpoll) as (w1 & Hrun & _).
  eexists _, (reaped c), w1. split.
  - unfold get_status. cbn. rewrite Hrun. reflexivity.
  - repeat split. intros w2. eexists. split.
    + unfold get_status. cbn.
      rewrite (is_running_none E (reaped c) w2 eq_refl). reflexivity.
    + reflexivity.
Qed.

Lemma get_status_stale_after_death_witness :
  exists st c1 w1,
    get_status env_dies orphaned = (Ok st, (c1, w1)) /\
    st_state st = "playing" /\
    st_position st = PFloat float_zero /\
    st_is_paused st = PBool false /\
    state c1 = STOPPED /\
    process c1 = None /\
    forall w2, exists st2,
      get_status env_dies (c1, w2) = (Ok st2, (c1, w2)) /\
      st_state st2 = "stopped".
Proof.
  apply (@get_status_stale_after_death env_dies (fst orphaned) (snd orphaned)
           1 0%Z); vm_compute; reflexivity.
Defined.

(** C6: [get_status()] on a player that is not running returns position
    0.0 and is_paused False whatever is cached.  On a running player each
    of position, is_paused and state is overwritten from the polled value
    when the poll yields data, and keeps the value the snapshot started
    with (cached state, default position 0.0, default is_paused False)
    when the poll yields None. *)
Theorem get_status_reconciles (E : Env) (c : Controller) (w : World) :
  (forall c1 w1,
     is_running E (c, w) = (Ok false, (c1, w1)) ->
     exists st,
       get_status E (c, w) = (Ok st, (c1, w1)) /\
       st_position st = PFloat float_zero /\
       st_is_paused st = PBool false /\
       st_state st = value (state c)) /\
  (forall c1 w1 pos w2 is_paused w3,
     is_running E (c, w) = (Ok true, (c1, w1)) ->
     _get_property E "time-pos" w1 = (Ok pos, w2) ->
     _get_property E "pause" w2 = (Ok is_paused, w3) ->
     exists st c3,
       get_status E (c, w) = (Ok st, (c3, w3)) /\
       st_position st = (if is_none pos then PFloat float_zero else pos) /\
       st_is_paused st =
         (if is_none is_paused then PBool false else is_paused) /\
       st_state st =
         (if is_none is_paused then value (state c)
          else if truthy is_paused then "paused" else "playing") /\
       current_position c3 =
         (if is_none pos then current_position c else pos) /\
       state c3 =
         (if is_none is_paused then state c
          else if truthy is_paused then PAUSED else PLAYING)).
Proof.
  split.
  - intros c1 w1 Hrun. eexists. split.
    + unfold get_status. cbn. rewrite Hrun. reflexivity.
    + repeat split.
  - intros c1 w1 pos w2 is_paused w3 Hrun Hpos Hpause.
    destruct (is_running_true_same E c w Hrun) as [-> _].
    unfold get_status. cbn. rewrite Hrun. cbn.
    erewrite lift_run by eassumption. cbn.
    destruct (is_none pos) eqn:Hnp; cbn;
      first [erewrite lift_run by eassumption | rewrite Hpause]; cbn;
      destruct (is_none is_paused) eqn:Hni; cbn;
      eexists _, _; (split; [reflexivity |]); cbn;
      destruct (truthy is_paused); repeat split.
Qed.

Lemma get_status_reconciles_witness :
  (exists st,
     get_status env_ok (fresh, world0) = (Ok st, (fresh, world0)) /\
     st_position st = PFloat float_zero /\
     st_is_paused st = PBool false /\
     st_state st = "stopped") /\
  (state (fst paused) = PAUSED /\
   exists st c3 w3,
     get_status env_ok paused = (Ok st, (c3, w3)) /\
     st_position st = PFloat (S754_finite false 25 (-1)) /\
     st_is_paused st = PBool false /\
     st_state st = "playing" /\
     current_position c3 = PFloat (S754_finite false 25 (-1)) /\
     state c3 = PLAYING).
Proof.
  split.
  - apply (proj1 (get_status_reconciles env_ok fresh world0)).
    reflexivity.
  - split; [vm_compute; reflexivity |].
    pose (w1 := snd (snd (is_running env_ok paused))).
    pose (w2 := snd (_get_property env_ok "time-pos" w1)).
    pose (w3 := snd (_get_property env_ok "pause" w2)).
    destruct (proj2 (get_status_reconciles env_ok (fst paused) (snd paused))
                (fst paused) w1 (PFloat (S754_finite false 25 (-1))) w2
                (PBool false) w3)
      as (st & c3 & H); try (vm_compute; reflexivity).
    exists st, c3, w3. exact H.
Defined.

(** When the polls yield no data, the snapshot reports position 0.0, not
    the cached position, which the controller keeps. *)
Example get_status_poll_fails :
  let cached := PFloat (S754_finite false 25 (-1)) in
  let '(r, (c, _)) :=
    get_status env_unavailable
      (with_current_position cached (with_state PAUSED playing_a), world0) in
  match r with
  | Ok st =>
      st_position st = PFloat float_zero /\ st_is_paused st = PBool false /\
      st_state st = "paused"
  | Raise _ => False
  end /\
  current_position c = cached /\ state c = PAUSED.
Proof. vm_compute. repeat split. Qed.

(** ** IPC *)

(** C7: the IPC send raises to its caller when the existence check on the
    socket path itself fails: the check stands before the [try], so the
    error of [stat] propagates and no connection is opened.  When the check
    answers, the send never raises: it returns None when the socket path
    does not exist (and then opens no connection), when connecting,
    serialising, sending or receiving times out or fails in any other way,
    and when the reply cannot be decoded or parsed; otherwise its result is
    the parsed reply. *)
Theorem send_command_degrades (E : Env) (command : pyval) (w : World) :
  (forall e,
     stat_raises E socket_path (clock w) = Some e ->
     _send_command E command w = (Raise e, tick (observe_socket E w))) /\
  (stat_raises E socket_path (clock w) = None ->
  exists r w',
    _send_command E command w = (Ok r, w') /\
    (sock (observe_socket E w) = false ->
       r = PNone /\ connects w' = connects w /\ sent w' = sent w) /\
    (forall e, ipc_connect E (S (clock w)) = Some e -> r = PNone) /\
    (forall e, json_dumps E command = Raise e -> r = PNone) /\
    (forall e dumped,
       json_dumps E command = Ok dumped ->
       ipc_sendall E (dumped ++ String newline "") (S (S (clock w))) = Some e ->
       r = PNone) /\
    (forall e dumped,
       json_dumps E command = Ok dumped ->
       recv_loop (ipc_reply E (dumped ++ String newline "")
                    (S (S (S (clock w))))) [] = Raise e ->
       r = PNone) /\
    (forall e dumped data,
       json_dumps E command = Ok dumped ->
       recv_loop (ipc_reply E (dumped ++ String newline "")
                    (S (S (S (clock w))))) [] = Ok data ->
       utf8_decode E data = Raise e ->
       r = PNone) /\
    (forall e dumped data text,
       json_dumps E command = Ok dumped ->
       recv_loop (ipc_reply E (dumped ++ String newline "")
                    (S (S (S (clock w))))) [] = Ok data ->
       utf8_decode E data = Ok text ->
       json_loads E text = Raise e ->
       r = PNone) /\
    (r = PNone \/
     exists dumped data text,
       json_dumps E command = Ok dumped /\
       recv_loop (ipc_reply E (dumped ++ String newline "")
                    (S (S (S (clock w))))) [] = Ok data /\
       utf8_decode E data = Ok text /\
       json_loads E text = Ok r)).
Proof.
  unfold _send_command, socket_path_exists, socket_connect, socket_sendall,
    socket_recv_response, of_outcome, opt_raise.
  cbn. split; [intros e Hstat; rewrite Hstat; reflexivity |].
  intros Hstat. rewrite Hstat.
  destruct (sock (observe_socket E w)) eqn:Hsock; cbn.
  2: { eexists _, _. split; [reflexivity |].
       repeat split; auto.
       all: apply observe_socket_silent. }
  rewrite !observe_socket_clock.
  destruct (ipc_connect E (S (clock w))) as [ec |] eqn:Hconn; cbn.
  { destruct (is_socket_timeout ec); cbn; eexists _, _;
      (split; [reflexivity |]); repeat split; auto; discriminate. }
  destruct (json_dumps E command) as [dumped | ed] eqn:Hdump; cbn.
  2: { destruct (is_socket_timeout ed); cbn; eexists _, _;
         (split; [reflexivity |]); repeat split; auto; discriminate. }
  destruct (ipc_sendall E _ (S (S (clock w)))) as [es |] eqn:Hsend; cbn.
  { destruct (is_socket_timeout es); cbn; eexists _, _;
      (split; [reflexivity |]); repeat split; auto; discriminate. }
  destruct (recv_loop _ []) as [data | er] eqn:Hrecv; cbn.
  2: { destruct (is_socket_timeout er); cbn; eexists _, _;
         (split; [reflexivity |]); repeat split; auto; discriminate. }
  destruct data as [| b data]; cbn.
  { eexists _, _; (split; [reflexivity |]); repeat split; auto; discriminate. }
  destruct (utf8_decode E (b :: data)) as [text | ed] eqn:Hdec; cbn.
  2: { destruct (is_socket_timeout ed); cbn; eexists _, _;
         (split; [reflexivity |]); repeat split; auto; discriminate. }
  destruct (json_loads E text) as [r | el] eqn:Hload; cbn.
  2: { destruct (is_socket_timeout el); cbn; eexists _, _;
         (split; [reflexivity |]); repeat split; auto; discriminate. }
  eexists _, _. split; [reflexivity |].
  repeat split; try discriminate.
  - intros e d Hd. inversion Hd; subst. congruence.
  - intros e d Hd. inversion Hd; subst. congruence.
  - intros e d dt Hd. inversion Hd; subst. congruence.
  - intros e d dt tx Hd. inversion Hd; subst.
    intros Hr. rewrite Hrecv in Hr. inversion Hr; subst.
    congruence.
  - right. exists dumped, (b :: data), text. auto.
Qed.

Lemma send_command_degrades_witness :
  _send_command env_denied (get_property_command "pause") world0
  = (Raise OSError, tick (observe_socket env_denied world0)) /\
  exists r w',
    _send_command env_ok (get_property_command "pause") (snd started)
    = (Ok r, w').
Proof.
  split.
  - apply (proj1 (@send_command_degrades env_denied
                    (get_property_command "pause") world0)).
    reflexivity.
  - destruct (proj2 (@send_command_degrades env_ok
                       (get_property_command "pause") (snd started))
                eq_refl) as (r & w' & Hrun & _).
    exists r, w'. exact Hrun.
Defined.

(** An I/O error on the socket path escapes [_send_command] and, through
    [_get_property], [get_status]. *)
Example send_command_raises :
  fst (_send_command env_denied ao_reload_command world0) = Raise OSError /\
  fst (get_status env_denied started) = Raise OSError.
Proof. vm_compute. split; reflexivity. Qed.

(** ** Audio device detection *)

Lemma lower_h_not_space c : lower_ascii c = "h"%char -> is_space c = false.
Proof.
  destruct c as [[] [] [] [] [] [] [] []]; vm_compute; congruence.
Qed.

Lemma startswith_cons a p s :
  startswith (String a p) s = true ->
  exists s', s = String a s' /\ startswith p s' = true.
Proof.
  destruct s as [| b s']; cbn [startswith]; [discriminate |].
  intros H. apply andb_true_iff in H. destruct H as [Hab Hp].
  apply Ascii.eqb_eq in Hab. subst. eauto.
Qed.

Lemma contains_hdmi_nonspace s :
  contains "hdmi" (lower s) = true -> has_nonspace s = true.
Proof.
  induction s as [| c s IH]; cbn [lower contains has_nonspace]; intros H.
  - discriminate.
  - apply orb_true_iff in H. destruct H as [H | H].
    + apply startswith_cons in H. destruct H as (s' & Heq & _).
      injection Heq as Hc _.
      rewrite (lower_h_not_space _ Hc). reflexivity.
    + rewrite (IH H). apply orb_true_r.
Qed.

Lemma startswith_contains sub s :
  startswith sub s = true -> contains sub s = true.
Proof.
  intros H. destruct s; cbn [contains]; rewrite H; reflexivity.
Qed.

Lemma contains_vc4hdmi_hdmi s :
  contains "vc4hdmi" s = true -> contains "hdmi" s = true.
Proof.
  induction s as [| c s IH]; intros H.
  - discriminate.
  - cbn [contains] in H. apply orb_true_iff in H. destruct H as [H | H].
    + change (startswith "vc4hdmi" (String c s))
        with (Ascii.eqb "v" c && startswith "c4hdmi" s) in H.
      apply andb_true_iff in H. destruct H as [_ H].
      apply startswith_cons in H. destruct H as (s2 & -> & H).
      apply startswith_cons in H. destruct H as (s3 & -> & H).
      cbn [contains]. rewrite (startswith_contains _ _ H).
      rewrite !orb_true_r. reflexivity.
    + cbn [contains]. rewrite (IH H). apply orb_true_r.
Qed.

Lemma lstrip_nonspace s :
  has_nonspace s = true ->
  exists c rest, lstrip s = String c rest /\ is_space c = false.
Proof.
  induction s as [| c s IH]; cbn [has_nonspace lstrip]; intros H.
  - discriminate.
  - destruct (is_space c) eqn:Hc; cbn in H.
    + apply IH. assumption.
    + exists c, s. auto.
Qed.

Lemma rstrip_nonspace c rest :
  is_space c = false -> rstrip (String c rest) <> EmptyString.
Proof.
  intros Hc. cbn [rstrip]. destruct (rstrip rest); rewrite ?Hc; discriminate.
Qed.

Lemma strip_nonspace s : has_nonspace s = true -> strip s <> EmptyString.
Proof.
  intros H. destruct (lstrip_nonspace s H) as (c & rest & Heq & Hc).
  unfold strip. rewrite Heq. apply rstrip_nonspace. assumption.
Qed.

(** The loop of the detector returns the first HDMI line, stripped and
    prefixed; the test [if device] never fails on such a line. *)
Lemma scan_lines_find lines :
  scan_lines lines =
  option_map (fun line => "alsa/" ++ strip line) (find is_hdmi_line lines).
Proof.
  induction lines as [| line rest IH]; [reflexivity |].
  cbn [scan_lines find]. unfold is_hdmi_line at 1.
  destruct (contains "vc4hdmi" (lower line) || contains "hdmi" (lower line))
    eqn:Hm; cbn [andb]; [| assumption].
  destruct (startswith "    " line); cbn [negb]; [assumption |].
  assert (Hh : contains "hdmi" (lower line) = true).
  { apply orb_true_iff in Hm. destruct Hm as [Hm | Hm]; [| assumption].
    apply contains_vc4hdmi_hdmi. assumption. }
  pose proof (strip_nonspace line (contains_hdmi_nonspace line Hh)) as Hne.
  destruct (String.eqb_spec (strip line) ""); [contradiction |].
  reflexivity.
Qed.

Example detect_pi :
  fst (_detect_hdmi_audio env_ok world0)
  = Ok (Some "alsa/hdmi:CARD=vc4hdmi0,DEV=0").
Proof. reflexivity. Qed.

Example detect_timeout : fst (_detect_hdmi_audio env_no_aplay world0) = Ok None.
Proof. reflexivity. Qed.

(** C8, as stated, fails: on a listing in which no line mentions HDMI the
    detector does not return None, it returns the default ALSA device. *)
Lemma detect_without_hdmi_not_none :
  forallb (fun line => negb (contains "hdmi" (lower line)))
    (split_lines listing_plain) = true /\
  fst (_detect_hdmi_audio env_plain world0) = Ok (Some "alsa/default") /\
  fst (_detect_hdmi_audio env_plain world0) <> Ok None.
Proof.
  split; [reflexivity |]. split; [reflexivity |].
  vm_compute. discriminate.
Qed.

(** C8, amended: the detector never raises.  It returns None exactly when
    the enumeration fails (any error or timeout).  Otherwise it returns the
    first enumerated line that mentions the vendor driver or "hdmi" (case
    insensitive) and is not indented, stripped of surrounding whitespace and
    prefixed with "alsa/"; when no line qualifies it returns the fallback
    "alsa/default". *)
Theorem detect_hdmi_audio_result (E : Env) (w : World) :
  fst (_detect_hdmi_audio E w) =
  Ok (match aplay E (clock w) with
      | Raise _ => None
      | Ok stdout =>
          Some (match find is_hdmi_line (split_lines stdout) with
                | Some line => "alsa/" ++ strip line
                | None => "alsa/default"
                end)
      end).
Proof.
  unfold _detect_hdmi_audio, run_aplay. cbn.
  destruct (aplay E (clock w)) as [stdout | e]; cbn; [| reflexivity].
  rewrite scan_lines_find.
  destruct (find is_hdmi_line (split_lines stdout)); reflexivity.
Qed.

(** ** Specifications of the command builder and of IPC *)

Section IpcSpecs.

Variable E : Env.

Lemma log_connect_steady w : steady w (log_connect w).
Proof. world_step. Qed.

Lemma log_sent_steady s w : steady w (log_sent s w).
Proof. world_step. Qed.

Lemma tick_steady w : steady w (tick w).
Proof. world_step. Qed.

Lemma wp_detect_hdmi_audio Q w :
  (forall r w', silent w w' -> Q (Ok r) w') ->
  wpW (_detect_hdmi_audio E) Q w.
Proof.
  intros H. unfold _detect_hdmi_audio. wp_steps.
  apply wp_run_aplay. intros w1 H1.
  destruct (aplay E (clock w)); wp_steps; apply H; assumption.
Qed.

(** The command builder never raises, leaves the controller alone and puts
    the media path last. *)
Lemma wp_get_mpv_command file_path Q c w :
  (forall cmd w', silent w w' -> last cmd "" = file_path ->
                  Q (Ok cmd) (c, w')) ->
  wpM (_get_mpv_command E file_path) Q (c, w).
Proof.
  intros H. unfold _get_mpv_command. wp_steps;
    try (apply wp_detect_hdmi_audio; intros r w1 H1; wp_steps);
    apply H; auto using silent_refl, last_last.
Qed.

(** The wait performs neither IPC nor spawn; it ends with an answer or
    with the error of an existence check. *)
Lemma wp_await_socket attempts Q w :
  (forall r w', silent w w' -> Q r w') ->
  wpW (await_socket E attempts) Q w.
Proof.
  revert Q w. induction attempts as [| k IH]; intros Q w H;
    cbn [await_socket]; wp_steps.
  - apply H. apply silent_refl.
  - apply wp_socket_path_exists.
    + intros e w1 _ H1 _. wp_steps. apply H. assumption.
    + intros w1 _ H1 _. wp_steps.
      * apply H. assumption.
      * apply wp_sleep. intros w2 H2. apply IH. intros b w3 H3.
        apply H. eauto using silent_trans.
Qed.

Lemma wp_socket_connect Q w :
  (forall r w', steady w w' -> Q r w') -> wpW (socket_connect E) Q w.
Proof.
  intros H. apply H.
  eapply steady_trans; [apply log_connect_steady | apply tick_steady].
Qed.

Lemma wp_socket_sendall command_str Q w :
  (forall r w', steady w w' -> Q r w') ->
  wpW (socket_sendall E command_str) Q w.
Proof.
  intros H. apply H.
  eapply steady_trans; [apply log_sent_steady | apply tick_steady].
Qed.

Lemma wp_socket_recv_response command_str Q w :
  (forall r w', steady w w' -> Q r w') ->
  wpW (socket_recv_response E command_str) Q w.
Proof. intros H. apply H. apply tick_steady. Qed.

(** [_send_command] never spawns and sends no signal; it raises only what
    the existence check on the socket path raises. *)
Lemma wp_send_command command Q w :
  (forall e w', stat_raises E socket_path (clock w) = Some e ->
                steady w w' -> Q (Raise e) w') ->
  (forall r w', stat_raises E socket_path (clock w) = None ->
                steady w w' -> Q (Ok r) w') ->
  wpW (_send_command E command) Q w.
Proof.
  intros Hraise H. unfold _send_command. wp_steps.
  apply wp_socket_path_exists.
  { intros e w1 Hstat H1 _. apply silent_steady in H1. wp_steps.
    apply Hraise; assumption. }
  intros w1 Hstat H1 _. apply silent_steady in H1.
  specialize (H) as H0.
  assert (H' : forall r w', steady w w' -> Q (Ok r) w')
    by (intros; apply H; assumption).
  clear H H0.
  wp_steps; [| apply H'; assumption].
  apply wp_socket_connect. intros r2 w2 H2. wp_steps;
    try (apply H'; eauto using steady_trans).
  apply wp_socket_sendall. intros r3 w3 H3. wp_steps;
    try (apply H'; eauto using steady_trans).
  apply wp_socket_recv_response. intros r4 w4 H4. wp_steps;
    apply H'; eauto 6 using steady_trans.
Qed.

Lemma wp_get_property name Q w :
  (forall r w', steady w w' -> Q r w') -> wpW (_get_property E name) Q w.
Proof.
  intros H. unfold _get_property. wp_steps.
  apply wp_send_command.
  - intros e w1 _ H1. wp_steps. apply H. assumption.
  - intros r w1 _ H1. wp_steps; apply H; auto.
Qed.

Lemma get_property_steady name w :
  steady w (snd (_get_property E name w)).
Proof.
  apply (@wp_get_property name (fun _ w' => steady w w')). auto.
Qed.

Lemma wp_set_property name v Q w :
  (forall r w', steady w w' -> Q r w') -> wpW (_set_property E name v) Q w.
Proof.
  intros H. unfold _set_property. wp_steps.
  apply wp_send_command.
  - intros e w1 _ H1. wp_steps. apply H. assumption.
  - intros r w1 _ H1. wp_steps. apply H. assumption.
Qed.

End IpcSpecs.

(** ** Specification of [play] *)

Lemma settled_process c c1 : settled c c1 -> process c1 = None.
Proof. destruct 1; auto. Qed.

Lemma settled_state c c1 :
  settled c c1 -> state c1 = state c \/ state c1 = STOPPED.
Proof. destruct 1; auto. Qed.

Lemma settled_unprocess c c1 p :
  settled c c1 -> with_process None (with_process (Some p) c1) = c1.
Proof.
  intros H. apply settled_process in H.
  destruct c1; cbn in *. subst. reflexivity.
Qed.

Lemma settled_forget c c1 : settled c c1 -> with_process None c1 = c1.
Proof.
  intros H. apply settled_process in H.
  destruct c1; cbn in *. subst. reflexivity.
Qed.

Lemma launched_steady file_path w w1 w2 :
  launched file_path w w1 -> steady w1 w2 -> launched file_path w w2.
Proof.
  intros [(cmd & Hlast & Hsp) Hsig] [Hns Hks]. split.
  - exists cmd. split; [assumption |]. unfold no_spawn in Hns. congruence.
  - eapply incl_tran; eassumption.
Qed.

Lemma launched_silent file_path w w1 w2 :
  launched file_path w w1 -> silent w1 w2 -> launched file_path w w2.
Proof. intros H Hs. eapply launched_steady; eauto using silent_steady. Qed.

Lemma launched_spawn cmd w w1 :
  silent w w1 -> launched (last cmd "") w (tick (log_spawn cmd w1)).
Proof.
  intros (_ & Hns & Hks). split.
  - exists cmd. split; [reflexivity |]. cbn. unfold no_spawn in Hns.
    congruence.
  - exact Hks.
Qed.

Lemma no_ipc_spawn cmd w w1 :
  silent w w1 -> no_ipc w (tick (log_spawn cmd w1)).
Proof. intros (Hni & _). exact Hni. Qed.

Section PlaySpecs.

Variable E : Env.

Lemma wp_Popen cmd Q w :
  (forall p, popen E cmd (clock w) = Ok p ->
             Q (Ok p) (tick (log_spawn cmd w))) ->
  (forall e, popen E cmd (clock w) = Raise e -> Q (Raise e) (tick w)) ->
  wpW (Popen E cmd) Q w.
Proof.
  intros Hok Hraise. unfold wpW, Popen.
  destruct (popen E cmd (clock w)); cbn; auto.
Qed.

Lemma wp_path_exists file_path Q w :
  (forall e, stat_raises E file_path (clock w) = Some e ->
             Q (Raise e) (tick w)) ->
  (stat_raises E file_path (clock w) = None ->
   Q (Ok (media_exists E file_path (clock w))) (tick w)) ->
  wpW (path_exists E file_path) Q w.
Proof.
  intros Hraise Hok. unfold wpW, path_exists.
  destruct (stat_raises E file_path (clock w)); cbn; auto.
Qed.

(** Every way the launch can end: the check fails, the file is missing,
    process creation fails, or a process is started. *)
Lemma wp_play_launch file_path Q c w :
  (forall e, stat_raises E file_path (clock w) = Some e ->
             Q (Raise e) (c, tick w)) ->
  (stat_raises E file_path (clock w) = None ->
   media_exists E file_path (clock w) = false -> Q (Ok false) (c, tick w)) ->
  (forall c1 e w',
     found E file_path (clock w) ->
     settled c c1 -> silent w w' -> spawn_failed E file_path ->
     Q (Raise e) (c1, w')) ->
  (forall c1 p w',
     found E file_path (clock w) ->
     settled c c1 -> launched file_path w w' -> no_ipc w w' ->
     Q (Ok true) (with_process (Some p) c1, w')) ->
  wpM (play_launch E file_path) Q (c, w).
Proof.
  intros Hcheck Hmiss Hraise Hok. unfold play_launch. wp_steps.
  apply wp_path_exists; [intros e Hstat; wp_steps; apply Hcheck; assumption |].
  intros Hstat.
  destruct (media_exists E file_path (clock w)) eqn:Hex; cbn [negb]; wp_steps;
    [| apply Hmiss; auto].
  assert (Hfound : found E file_path (clock w)) by (split; assumption).
  assert (Hgo : forall c1 w1, settled c c1 -> silent w w1 ->
            wpM (_get_mpv_command E file_path)
              (fun r s' =>
                 match r with
                 | Ok cmd =>
                     wpM (p <- lift (Popen E cmd) ;;
                          update (with_process (Some p)) ;;
                          ret true) Q s'
                 | Raise e => Q (Raise e) s'
                 end) (c1, w1)).
  { intros c1 w1 Hset H1.
    apply wp_get_mpv_command. intros cmd w2 H2 Hlast. wp_steps.
    assert (Hsil : silent w w2) by eauto using silent_trans.
    apply wp_Popen.
    - intros p Hp. wp_steps.
      apply Hok; auto using no_ipc_spawn.
      rewrite <- Hlast. apply launched_spawn. assumption.
    - intros e He. wp_steps.
      apply Hraise;
        [assumption | assumption | eauto using silent_trans, tick_silent |].
      exists cmd, (clock w2), e. auto. }
  apply wp_is_running.
  - intros Hnone. wp_steps. apply Hgo; [constructor; assumption |].
    apply tick_silent.
  - intros p w1 Hp Hpoll ->. wp_steps.
    apply wp_stop. intros w2 H2. wp_steps.
    apply Hgo; [constructor |].
    eapply silent_trans; [apply tick_silent |].
    eapply silent_trans; [apply tick_silent | exact H2].
  - intros p rc w1 Hp Hpoll H1. wp_steps.
    apply Hgo; [constructor |].
    eapply silent_trans; [apply tick_silent | exact H1].
Qed.

End PlaySpecs.

Section PlayOutcomes.

Variable E : Env.

(** Every way the [try] block of [play] can end. *)
Lemma wp_play_body file_path Q c w :
  (forall e, stat_raises E file_path (clock w) = Some e ->
             Q (Raise e) (c, tick w)) ->
  (stat_raises E file_path (clock w) = None ->
   media_exists E file_path (clock w) = false -> Q (Ok false) (c, tick w)) ->
  (forall c1 e w',
     found E file_path (clock w) ->
     settled c c1 -> silent w w' -> spawn_failed E file_path ->
     Q (Raise e) (c1, w')) ->
  (forall c1 p e w',
     found E file_path (clock w) ->
     settled c c1 -> launched file_path w w' -> no_ipc w w' ->
     Q (Raise e) (with_process (Some p) c1, w')) ->
  (forall c1 w',
     found E file_path (clock w) ->
     settled c c1 -> launched file_path w w' -> no_ipc w w' ->
     (socket_removable E -> sock w' = false) ->
     Q (Ok false) (c1, w')) ->
  (forall c1 p d w1 w',
     found E file_path (clock w) ->
     settled c c1 -> launched file_path w w1 -> launched file_path w w' ->
     _get_property E "duration" w1 = (Ok d, w') ->
     Q (Ok true)
       (with_duration (py_or d (PFloat float_zero))
          (playing_on E file_path p c1), w')) ->
  (forall c1 p e w',
     found E file_path (clock w) ->
     settled c c1 -> launched file_path w w' ->
     Q (Raise e) (playing_on E file_path p c1, w')) ->
  wpM (play_body E file_path) Q (c, w).
Proof.
  intros Hcheck Hmiss Hspawn Hwait Htimeout Hok Hprop.
  unfold play_body. wp_steps.
  apply wp_play_launch.
  - intros e Hstat. apply Hcheck. assumption.
  - intros Hstat Hex. wp_steps. apply Hmiss; assumption.
  - intros c1 e w1 Hex Hset H1 Hfail. apply Hspawn; assumption.
  - intros c1 p w1 Hex Hset Hl Hni. wp_steps.
    apply wp_await_socket. intros [ready | e] w2 H2; wp_steps.
    + apply wp_sleep. intros w3 H3. wp_steps.
      assert (Hl3 : launched file_path w w3).
      { eapply launched_silent; [| exact H3].
        eapply launched_silent; eassumption. }
      unfold wpW.
      pose proof (get_property_steady E "duration" w3) as H4.
      destruct (_get_property E "duration" w3) as [[d | e] w4] eqn:Hd;
        cbn [fst snd] in H4 |- *; wp_steps.
      * eapply Hok; try eassumption.
        eapply launched_steady; eassumption.
      * apply Hprop; try assumption.
        eapply launched_steady; eassumption.
    + apply wp_cleanup_process. intros w3 H3 Hterm Hsock. wp_steps.
      rewrite (settled_unprocess p Hset).
      apply Htimeout; try assumption.
      * eapply launched_silent; [| exact H3].
        eapply launched_silent; eassumption.
      * eapply no_ipc_trans; [exact Hni |].
        eapply no_ipc_trans; [apply H2 | apply H3].
    + apply Hwait; try assumption.
      * eapply launched_silent; eassumption.
      * eapply no_ipc_trans; [exact Hni | apply H2].
Qed.

(** Every way [play] can end; it never raises. *)
Lemma wp_play file_path Q c w :
  (forall e w',
     stat_raises E file_path (clock w) = Some e -> silent w w' ->
     Q (Ok false) (with_state ERROR (with_process None c), w')) ->
  (stat_raises E file_path (clock w) = None ->
   media_exists E file_path (clock w) = false -> Q (Ok false) (c, tick w)) ->
  (forall c1 w',
     found E file_path (clock w) ->
     settled c c1 -> silent w w' -> spawn_failed E file_path ->
     Q (Ok false) (with_state ERROR c1, w')) ->
  (forall c1 w',
     found E file_path (clock w) ->
     settled c c1 -> launched file_path w w' -> no_ipc w w' ->
     Q (Ok false) (with_state ERROR c1, w')) ->
  (forall c1 w',
     found E file_path (clock w) ->
     settled c c1 -> launched file_path w w' -> no_ipc w w' ->
     (socket_removable E -> sock w' = false) ->
     Q (Ok false) (c1, w')) ->
  (forall c1 p d w1 w',
     found E file_path (clock w) ->
     settled c c1 -> launched file_path w w1 -> launched file_path w w' ->
     _get_property E "duration" w1 = (Ok d, w') ->
     Q (Ok true)
       (with_duration (py_or d (PFloat float_zero))
          (playing_on E file_path p c1), w')) ->
  (forall c1 p w',
     found E file_path (clock w) ->
     settled c c1 -> launched file_path w w' ->
     Q (Ok false)
       (with_state ERROR (with_process None (playing_on E file_path p c1)),
        w')) ->
  wpM (play E file_path) Q (c, w).
Proof.
  intros Hcheck Hmiss Hspawn Hwait Htimeout Hok Hprop. unfold play. wp_steps.
  apply wp_play_body.
  - intros e Hstat. wp_steps.
    apply wp_cleanup_process. intros w2 H2 _ _. wp_steps.
    eapply Hcheck; [eassumption |].
    eapply silent_trans; [apply tick_silent | exact H2].
  - assumption.
  - intros c1 e w1 Hex Hset H1 Hfail. wp_steps.
    apply wp_cleanup_process. intros w2 H2 _ _. wp_steps.
    rewrite (settled_forget Hset).
    apply Hspawn; eauto using silent_trans.
  - intros c1 p e w1 Hex Hset Hl Hni. wp_steps.
    apply wp_cleanup_process. intros w2 H2 _ _. wp_steps.
    rewrite (settled_unprocess p Hset).
    apply Hwait; try assumption.
    + eapply launched_silent; eassumption.
    + eapply no_ipc_trans; [exact Hni | apply H2].
  - assumption.
  - assumption.
  - intros c1 p e w1 Hex Hset Hl. wp_steps.
    apply wp_cleanup_process. intros w2 H2 _ _. wp_steps.
    apply Hprop; try assumption.
    eapply launched_silent; eassumption.
Qed.

End PlayOutcomes.

(** ** Failing and refused playback *)

Lemma wpM_elim A (m : M A) Q s r s' : wpM m Q s -> m s = (r, s') -> Q r s'.
Proof. unfold wpM. intros H Heq. rewrite Heq in H. exact H. Qed.

Section PlayFacts.

Variable E : Env.

Lemma cleanup_process_run c w :
  exists w',
    _cleanup_process E (c, w) = (Ok tt, (with_process None c, w')) /\
    silent w w' /\
    (forall p, process c = Some p -> reaches E (terminate E) p (clock w) ->
               In (p, SIGTERM) (signals w')) /\
    (socket_removable E -> sock w' = false).
Proof.
  pose proof (@wp_cleanup_process E
    (fun r s' =>
       r = Ok tt /\ fst s' = with_process None c /\ silent w (snd s') /\
       (forall p, process c = Some p -> reaches E (terminate E) p (clock w) ->
                  In (p, SIGTERM) (signals (snd s'))) /\
       (socket_removable E -> sock (snd s') = false)) c w) as H.
  unfold wpM in H. destruct (_cleanup_process E (c, w)) as [r [c' w']].
  cbn in H. destruct H as (-> & -> & Hs & Hterm & Hsock).
  - intros. cbn. auto.
  - exists w'. auto.
Qed.

Lemma play_run_ok file_path s b s' :
  play_body E file_path s = (Ok b, s') -> play E file_path s = (Ok b, s').
Proof. intros H. unfold play. cbn. rewrite H. reflexivity. Qed.

Lemma play_run_raise file_path s e c1 w1 :
  play_body E file_path s = (Raise e, (c1, w1)) ->
  exists w',
    play E file_path s
    = (Ok false, (with_state ERROR (with_process None c1), w')) /\
    silent w1 w'.
Proof.
  intros H. unfold play. cbn. rewrite H.
  destruct (cleanup_process_run c1 w1) as (w' & Hrun & Hs & _).
  rewrite Hrun. cbn. exists w'. auto.
Qed.

(** A launch leaves a state other than Playing, provided a controller in
    state Playing holds a process. *)
Lemma play_launch_state file_path c w b c1 w1 :
  (state c = PLAYING -> process c <> None) ->
  play_launch E file_path (c, w) = (Ok b, (c1, w1)) ->
  b = true ->
  state c1 <> PLAYING /\ process c1 <> None /\ no_ipc w w1.
Proof.
  intros Hinv Hrun.
  apply (@wpM_elim _ (play_launch E file_path)
           (fun r s' => forall b, r = Ok b -> b = true ->
                        state (fst s') <> PLAYING /\
                        process (fst s') <> None /\ no_ipc w (snd s'))
           (c, w) (Ok b) (c1, w1)); [| assumption | reflexivity].
  apply wp_play_launch.
  - intros; discriminate.
  - intros _ _ b' Hb' ->. discriminate.
  - intros; discriminate.
  - intros c2 p w' _ Hset _ Hni b' _ _. cbn. repeat split; auto.
    + destruct Hset as [Hnone | |]; cbn; try discriminate.
      intros Hp. apply (Hinv Hp). assumption.
    + discriminate.
    + apply Hni.
    + apply Hni.
Qed.

Lemma await_socket_silent attempts w :
  silent w (snd (await_socket E attempts w)).
Proof.
  apply (@wp_await_socket E attempts (fun _ w' => silent w w')).
  auto.
Qed.

End PlayFacts.

(** A launch that times out on the socket, from a controller in which
    state Playing comes with a process handle. *)
Lemma play_timeout_run (E : Env) (file_path : string)
    (c c1 : Controller) (w w1 w2 : World) :
  (state c = PLAYING -> process c <> None) ->
  play_launch E file_path (c, w) = (Ok true, (c1, w1)) ->
  await_socket E max_attempts w1 = (Ok false, w2) ->
  exists c' w',
    play E file_path (c, w) = (Ok false, (c', w')) /\
    state c' <> PLAYING /\
    process c' = None /\
    (forall p, process c1 = Some p ->
               reaches E (terminate E) p (clock w2) ->
               In (p, SIGTERM) (signals w')) /\
    no_ipc w w' /\
    (socket_removable E -> sock w' = false).
Proof.
  intros Hinv Hlaunch Hwait.
  destruct (play_launch_state E file_path c w Hinv Hlaunch eq_refl)
    as (Hstate & _ & Hni).
  destruct (cleanup_process_run E c1 w2) as (w' & Hclean & Hs & Hterm & Hsock).
  exists (with_process None c1), w'. split.
  - apply play_run_ok. unfold play_body. cbn. rewrite Hlaunch. cbn.
    erewrite lift_run by eassumption. cbn. rewrite Hclean. reflexivity.
  - assert (Hnw : no_ipc w w').
    { eapply no_ipc_trans; [exact Hni |].
      eapply no_ipc_trans; [| apply Hs].
      pose proof (await_socket_silent E max_attempts w1) as Ha.
      rewrite Hwait in Ha. apply Ha. }
    split; [exact Hstate |]. split; [reflexivity |]. auto.
Qed.

(** ** The state invariant *)

Ltac coherence :=
  unfold coherent in *; cbn in *;
  repeat match goal with
         | |- context [if ?b then _ else _] => destruct b
         end;
  cbn in *; split; intros; try congruence; auto;
  try (left; reflexivity); try (right; reflexivity);
  try solve [intuition congruence].

Lemma coherent_fresh : coherent fresh.
Proof. coherence. Qed.

Lemma coherent_stopped c : coherent (stopped c).
Proof. coherence. Qed.

Lemma coherent_reaped c : coherent (reaped c).
Proof. coherence. Qed.

Lemma coherent_settled c c1 : coherent c -> settled c c1 -> coherent c1.
Proof.
  intros Hc [Hnone | |]; auto using coherent_stopped, coherent_reaped.
Qed.

Lemma coherent_error c1 :
  process c1 = None -> coherent (with_state ERROR c1).
Proof. intros H. coherence. Qed.

Lemma coherent_hdmi_output o c : coherent c -> coherent (with_hdmi_output o c).
Proof. intros H. exact H. Qed.

Section Coherence.

Variable E : Env.

Lemma wp_is_running_coherent Q c w :
  coherent c ->
  (forall b c' w', coherent c' -> (b = true -> c' = c /\ process c <> None) ->
                   Q (Ok b) (c', w')) ->
  wpM (is_running E) Q (c, w).
Proof.
  intros Hc H. apply wp_is_running.
  - intros _. apply H; [assumption | discriminate].
  - intros p w' Hp _ _. apply H; [assumption |].
    intros _. split; [reflexivity | congruence].
  - intros p rc w' _ _ _. apply H; [apply coherent_reaped | discriminate].
Qed.

Lemma wp_stop_coherent Q c w :
  (forall c' w', coherent c' -> Q (Ok true) (c', w')) ->
  wpM (stop E) Q (c, w).
Proof.
  intros H. apply wp_stop. intros w' _. apply H. apply coherent_stopped.
Qed.

Lemma wp_play_coherent file_path Q c w :
  coherent c ->
  (forall b c' w', coherent c' -> Q (Ok b) (c', w')) ->
  wpM (play E file_path) Q (c, w).
Proof.
  intros Hc H. apply wp_play.
  - intros e w' _ _. apply H. apply coherent_error. reflexivity.
  - intros _ _. apply H. assumption.
  - intros c1 w' _ Hset _ _. apply H.
    apply coherent_error. eapply settled_process; eassumption.
  - intros c1 w' _ Hset _ _. apply H.
    apply coherent_error. eapply settled_process; eassumption.
  - intros c1 w' _ Hset _ _ _. apply H.
    eapply coherent_settled; eassumption.
  - intros c1 p d w1 w' _ Hset _ _ _. apply H. coherence.
  - intros c1 p w' _ Hset _. apply H. coherence.
Qed.

Lemma wp_pause_coherent Q c w :
  coherent c ->
  (forall r c' w', coherent c' -> Q (Ok r) (c', w')) ->
  wpM (pause E) Q (c, w).
Proof.
  intros Hc H. unfold pause. wp_steps.
  apply wp_is_running_coherent; [assumption |].
  intros b c' w1 Hc' Hb. wp_steps; [| apply H; assumption].
  destruct (Hb eq_refl) as [-> Hp].
  apply wp_get_property. intros r1 w2 _. wp_steps; try (apply H; assumption).
  all: apply wp_set_property; intros r2 w3 _; wp_steps;
    apply H; try assumption; coherence.
Qed.

Lemma wp_resume_coherent Q c w :
  coherent c ->
  (forall r c' w', coherent c' -> Q (Ok r) (c', w')) ->
  wpM (resume E) Q (c, w).
Proof.
  intros Hc H. unfold resume. wp_steps.
  apply wp_is_running_coherent; [assumption |].
  intros b c' w1 Hc' Hb. wp_steps; [| apply H; assumption].
  destruct (Hb eq_refl) as [-> Hp].
  apply wp_set_property; intros r2 w3 _; wp_steps;
    apply H; try assumption; coherence.
Qed.

Lemma wp_seek_with Q amount mode c w :
  (forall r w', steady w w' -> Q (Ok r) (c, w')) ->
  wpM (seek_with E amount mode) Q (c, w).
Proof.
  intros H. unfold seek_with. wp_steps.
  apply wp_send_command; [intros e w1 _ H1; wp_steps; apply H; assumption |].
  intros r1 w1 _ H1. wp_steps;
    try (apply H; assumption).
  apply wp_sleep. intros w2 H2. wp_steps.
  apply wp_send_command; intros r2 w3 _ H3; wp_steps;
    apply H; eauto using steady_trans, silent_steady.
Qed.

Lemma wp_skip_coherent Q seconds c w :
  coherent c ->
  (forall r c' w', coherent c' -> Q (Ok r) (c', w')) ->
  wpM (skip E seconds) Q (c, w).
Proof.
  intros Hc H. unfold skip. wp_steps.
  apply wp_is_running_coherent; [assumption |].
  intros b c' w1 Hc' Hb. wp_steps; [| apply H; assumption].
  apply wp_seek_with. intros r w2 _. apply H. assumption.
Qed.

Lemma wp_seek_coherent Q position c w :
  coherent c ->
  (forall r c' w', coherent c' -> Q (Ok r) (c', w')) ->
  wpM (seek E position) Q (c, w).
Proof.
  intros Hc H. unfold seek. wp_steps.
  apply wp_is_running_coherent; [assumption |].
  intros b c' w1 Hc' Hb. wp_steps; [| apply H; assumption].
  apply wp_seek_with. intros r w2 _. apply H. assumption.
Qed.

Lemma wp_set_volume_coherent Q level c w :
  coherent c ->
  (forall r c' w', coherent c' -> Q (Ok r) (c', w')) ->
  wpM (set_volume E level) Q (c, w).
Proof.
  intros Hc H. unfold set_volume. wp_steps.
  apply wp_is_running_coherent; [assumption |].
  intros b c' w1 Hc' Hb. wp_steps; [| apply H; assumption].
  apply wp_set_property; intros r2 w3 _; wp_steps;
    apply H; assumption.
Qed.

(** [get_status] may raise (a reply that is not a dict has no [get]); the
    invariant holds either way. *)
Lemma wp_get_status_coherent Q c w :
  coherent c ->
  (forall r c' w', coherent c' -> Q r (c', w')) ->
  wpM (get_status E) Q (c, w).
Proof.
  intros Hc H. unfold get_status. wp_steps.
  apply wp_is_running_coherent; [assumption |].
  intros b c' w1 Hc' Hb. wp_steps; [| apply H; assumption].
  destruct (Hb eq_refl) as [-> Hp].
  apply wp_get_property. intros r1 w2 _. wp_steps;
    try (apply H; assumption).
  all: apply wp_get_property; intros r2 w3 _; wp_steps;
    apply H; try assumption; coherence.
Qed.

Lemma wp_set_hdmi_output_coherent Q output c w :
  coherent c ->
  (forall r c' w', coherent c' -> Q (Ok r) (c', w')) ->
  wpM (set_hdmi_output E output) Q (c, w).
Proof.
  intros Hc H. unfold set_hdmi_output. wp_steps.
  apply wp_is_running_coherent; [apply coherent_hdmi_output; assumption |].
  intros b c' w1 Hc' Hb. wp_steps; try (apply H; assumption).
  apply wp_stop_coherent. intros c2 w2 Hc2. wp_steps.
  apply wp_play_coherent; [assumption |].
  intros b' c3 w3 Hc3. wp_steps; try (apply H; assumption).
  all: try (apply wp_seek_coherent; [assumption |];
            intros r c4 w4 Hc4; wp_steps; apply H; assumption).
Qed.

End Coherence.

(** ** Reachable states *)

Lemma init_coherent E media hw hdmi audio w c w' :
  init E media hw hdmi audio w = (Ok c, w') -> coherent c.
Proof.
  unfold init. cbn.
  destruct (_cleanup_socket E w) as [[[] | e] w1]; intros H; inversion H.
  coherence.
Qed.

Lemma perform_coherent E k c w :
  coherent c -> coherent (fst (perform E k (c, w))).
Proof.
  intros Hc. destruct k; cbn [perform].
  - apply (@wp_play_coherent E file_path (fun _ s' => coherent (fst s')));
      auto.
  - apply (@wp_pause_coherent E (fun _ s' => coherent (fst s'))); auto.
  - apply (@wp_resume_coherent E (fun _ s' => coherent (fst s'))); auto.
  - apply (@wp_stop_coherent E (fun _ s' => coherent (fst s'))); auto.
  - apply (@wp_skip_coherent E (fun _ s' => coherent (fst s'))); auto.
  - apply (@wp_seek_coherent E (fun _ s' => coherent (fst s'))); auto.
  - apply (@wp_set_volume_coherent E (fun _ s' => coherent (fst s'))); auto.
  - apply (@wp_set_hdmi_output_coherent E (fun _ s' => coherent (fst s')));
      auto.
  - apply (@wp_is_running_coherent E (fun _ s' => coherent (fst s'))); auto.
  - apply (@wp_get_status_coherent E (fun _ s' => coherent (fst s'))); auto.
Qed.

(** Between calls, a handle is held exactly in states Playing and Paused. *)
Lemma reachable_coherent E s : reachable E s -> coherent (fst s).
Proof.
  induction 1 as [media hw hdmi audio w c w' Hinit | k [c w] Hr IH].
  - cbn. eapply init_coherent. eassumption.
  - apply perform_coherent. exact IH.
Qed.

(** In particular a reachable controller in state Playing holds a
    process. *)
Lemma reachable_playing_process E c w :
  reachable E (c, w) -> state c = PLAYING -> process c <> None.
Proof.
  intros Hr Hs. apply reachable_coherent in Hr. apply Hr. auto.
Qed.

(** ** Socket readiness timeout *)

(** C3: from every state the controller can be in, when the launch
    succeeds but the socket never becomes ready within the 20 attempts,
    [play] returns false, the state is not Playing and no process handle is
    left: the started process has got SIGTERM if the signal reached it (it
    had not exited and the call went through), no IPC was attempted, and
    the socket file is absent unless looking at it or deleting it
    failed. *)
Theorem play_socket_timeout (E : Env) (file_path : string)
    (c c1 : Controller) (w w1 w2 : World) :
  reachable E (c, w) ->
  play_launch E file_path (c, w) = (Ok true, (c1, w1)) ->
  await_socket E max_attempts w1 = (Ok false, w2) ->
  exists c' w',
    play E file_path (c, w) = (Ok false, (c', w')) /\
    state c' <> PLAYING /\
    process c' = None /\
    (forall p, process c1 = Some p ->
               reaches E (terminate E) p (clock w2) ->
               In (p, SIGTERM) (signals w')) /\
    no_ipc w w' /\
    (socket_removable E -> sock w' = false).
Proof.
  intros Hreach. apply play_timeout_run.
  apply (reachable_playing_process Hreach).
Qed.

Lemma play_socket_timeout_witness :
  exists c' w',
    play env_no_socket "/media/a.mp4" (fresh, tick world0)
    = (Ok false, (c', w')) /\
    state c' <> PLAYING /\
    process c' = None /\
    In (1, SIGTERM) (signals w') /\
    no_ipc (tick world0) w' /\
    sock w' = false.
Proof.
  pose (r := play_launch env_no_socket "/media/a.mp4" (fresh, tick world0)).
  vm_compute in r.
  pose (a := await_socket env_no_socket max_attempts (snd (snd r))).
  vm_compute in a.
  destruct (@play_socket_timeout env_no_socket "/media/a.mp4" fresh
              (fst (snd r)) (tick world0) (snd (snd r)) (snd a))
    as (c' & w' & Hplay & Hstate & Hproc & Hterm & Hipc & Hsock).
  - apply (@reach_init env_no_socket "/media" true "auto" true world0).
    vm_compute. reflexivity.
  - vm_compute. reflexivity.
  - vm_compute. reflexivity.
  - exists c', w'. repeat split; try assumption.
    + apply Hterm; [reflexivity | split; reflexivity].
    + apply Hipc.
    + apply Hipc.
    + apply Hsock. split; intros t; reflexivity.
Defined.

(** A record with state Playing and no process handle is not a state of
    the controller ([reachable_coherent]); only there would a timed-out
    launch leave Playing behind. *)
Example play_timeout_incoherent :
  ~ coherent (with_state PLAYING fresh) /\
  state (fst (snd (play env_no_socket "/media/a.mp4"
                     (with_state PLAYING fresh, world0)))) = PLAYING.
Proof.
  split; [| vm_compute; reflexivity].
  unfold coherent. cbn. intros [_ H]. apply H; auto.
Qed.

(** ** Failure of [play] and the Error state *)

(** C1, as stated, fails: when the socket never becomes ready, [play]
    called in state Stopped returns false and the state is still Stopped,
    not Error. *)
Lemma play_timeout_stays_stopped :
  state fresh = STOPPED /\
  fst (play env_no_socket "/media/a.mp4" (fresh, world0)) = Ok false /\
  state (fst (snd (play env_no_socket "/media/a.mp4" (fresh, world0))))
  = STOPPED /\
  state (fst (snd (play env_no_socket "/media/a.mp4" (fresh, world0))))
  <> ERROR.
Proof.
  split; [reflexivity |]. split; [vm_compute; reflexivity |].
  split; [vm_compute; reflexivity |].
  vm_compute. discriminate.
Qed.

(** C1, amended: a [play] call that starts in state Stopped and returns
    false ends in state Error, with no process handle, when the failure is
    an exception raised inside the attempt; when the attempt ends without
    an exception (missing file, socket readiness timeout) the state is
    still Stopped. *)
Theorem play_failure_state (E : Env) (file_path : string)
    (c : Controller) (w : World) :
  state c = STOPPED ->
  fst (play E file_path (c, w)) = Ok false ->
  match fst (play_body E file_path (c, w)) with
  | Raise _ =>
      state (fst (snd (play E file_path (c, w)))) = ERROR /\
      process (fst (snd (play E file_path (c, w)))) = None
  | Ok _ => state (fst (snd (play E file_path (c, w)))) = STOPPED
  end.
Proof.
  intros Hstate Hfalse.
  destruct (play_body E file_path (c, w)) as [[b | e] [c1 w1]] eqn:Hbody;
    cbn [fst].
  - rewrite (play_run_ok E file_path _ Hbody) in *. cbn in *.
    injection Hfalse as ->.
    apply (@wpM_elim _ (play_body E file_path)
             (fun r s' => r = Ok false -> state (fst s') = STOPPED)
             (c, w) (Ok false) (c1, w1)); [| assumption | reflexivity].
    apply wp_play_body; try (intros; discriminate).
    + intros _ _ _. exact Hstate.
    + intros c2 w' _ Hset _ _ _ _. cbn.
      destruct (settled_state Hset) as [Hs | Hs]; congruence.
  - destruct (play_run_raise E file_path _ Hbody) as (w' & Hrun & _).
    rewrite Hrun. cbn. split; reflexivity.
Qed.

Example play_garbled_run :
  let '(r, (c, w)) := play env_garbled "/media/a.mp4" (fresh, world0) in
  r = Ok false /\ state c = ERROR /\ process c = None /\
  current_file c = Some "a.mp4" /\ signals w = [(1, SIGTERM)].
Proof. vm_compute. repeat split. Qed.

Lemma play_failure_state_witness :
  state (fst (snd (play env_no_socket "/media/a.mp4" (fresh, world0))))
  = STOPPED /\
  (state (fst (snd (play env_garbled "/media/a.mp4" (fresh, world0))))
   = ERROR /\
   process (fst (snd (play env_garbled "/media/a.mp4" (fresh, world0))))
   = None).
Proof.
  split.
  - apply (@play_failure_state env_no_socket "/media/a.mp4" fresh world0).
    + reflexivity.
    + vm_compute. reflexivity.
  - apply (@play_failure_state env_garbled "/media/a.mp4" fresh world0).
    + reflexivity.
    + vm_compute. reflexivity.
Defined.

(** ** Validation of the play target *)

(** C9, as stated, fails: [play] does check its target.  For a path that
    does not exist it returns false at once; nothing is spawned and the
    controller is untouched. *)
Lemma play_rejects_missing_path :
  media_exists env_no_file "/media/missing.mp4" (clock world0) = false /\
  play env_no_file "/media/missing.mp4" (fresh, world0)
  = (Ok false, (fresh, tick world0)) /\
  spawned (tick world0) = [].
Proof. repeat split. Qed.

(** C9, amended: [play] itself validates the target path.  When the
    existence check answers that the path does not exist, [play] returns
    false without attempting playback: nothing is spawned, no IPC happens,
    the controller is unchanged.  When the check itself fails, the error
    reaches the handler of [play] like any other: still nothing is spawned,
    [play] returns false, the handle is dropped and the state is Error.
    When the path exists, [play] goes on to start the player on it: either
    exactly one process is started, with the path as last argument, or
    process creation on such an argument list fails, and then [play]
    returns false in state Error with no handle and no process started. *)
Theorem play_validates_path (E : Env) (file_path : string)
    (c : Controller) (w : World) :
  (stat_raises E file_path (clock w) = None ->
   media_exists E file_path (clock w) = false ->
   play E file_path (c, w) = (Ok false, (c, tick w)) /\
   silent w (tick w)) /\
  (forall e,
     stat_raises E file_path (clock w) = Some e ->
     fst (play E file_path (c, w)) = Ok false /\
     state (fst (snd (play E file_path (c, w)))) = ERROR /\
     process (fst (snd (play E file_path (c, w)))) = None /\
     silent w (snd (snd (play E file_path (c, w))))) /\
  (found E file_path (clock w) ->
   launched file_path w (snd (snd (play E file_path (c, w)))) \/
   spawn_failed E file_path /\
   fst (play E file_path (c, w)) = Ok false /\
   state (fst (snd (play E file_path (c, w)))) = ERROR /\
   process (fst (snd (play E file_path (c, w)))) = None /\
   silent w (snd (snd (play E file_path (c, w))))).
Proof.
  split; [| split].
  - intros Hstat Hex. split; [| apply tick_silent].
    apply play_run_ok. unfold play_body, play_launch, path_exists. cbn.
    rewrite Hstat, Hex. reflexivity.
  - intros e Hstat.
    apply (@wp_play E file_path
             (fun r s' =>
                r = Ok false /\ state (fst s') = ERROR /\
                process (fst s') = None /\ silent w (snd s')));
      intros; unfold found in *; cbn; intuition congruence.
  - intros Hfound.
    apply (@wp_play E file_path
             (fun r s' =>
                launched file_path w (snd s') \/
                spawn_failed E file_path /\
                r = Ok false /\ state (fst s') = ERROR /\
                process (fst s') = None /\ silent w (snd s')));
      try (intros; unfold found in *; cbn; auto; intuition congruence).
    all: intros c1 w' _ Hset Hs Hfail; right; cbn;
      repeat split; try apply Hs; auto;
      eapply settled_process; eassumption.
Qed.

Lemma play_validates_path_witness :
  (play env_no_file "/media/a.mp4" (fresh, world0)
   = (Ok false, (fresh, tick world0)) /\
   silent world0 (tick world0)) /\
  (fst (play env_long_name "/media/long.mp4" (fresh, world0)) = Ok false /\
   state (fst (snd (play env_long_name "/media/long.mp4" (fresh, world0))))
   = ERROR) /\
  launched "/media/a.mp4" world0
    (snd (snd (play env_ok "/media/a.mp4" (fresh, world0)))) /\
  spawn_failed env_no_exec "/media/a.mp4".
Proof.
  split; [| split; [| split]].
  - apply (proj1 (play_validates_path env_no_file "/media/a.mp4" fresh world0));
      reflexivity.
  - destruct (proj1 (proj2 (play_validates_path env_long_name
                              "/media/long.mp4" fresh world0))
                OSError eq_refl) as (Hr & Hs & _).
    split; assumption.
  - destruct (proj2 (proj2 (play_validates_path env_ok "/media/a.mp4"
                              fresh world0)))
      as [Hl | (_ & _ & Hs & _)].
    + split; reflexivity.
    + exact Hl.
    + exfalso.
      assert (Hp : state (fst (snd (play env_ok "/media/a.mp4"
                                      (fresh, world0)))) = PLAYING)
        by (vm_compute; reflexivity).
      rewrite Hp in Hs. discriminate.
  - destruct (proj2 (proj2 (play_validates_path env_no_exec "/media/a.mp4"
                              fresh world0)))
      as [((cmd & _ & Hsp) & _) | (Hfail & _)].
    + split; reflexivity.
    + exfalso.
      assert (Hnone : spawned (snd (snd (play env_no_exec "/media/a.mp4"
                                           (fresh, world0)))) = [])
        by (vm_compute; reflexivity).
      rewrite Hnone in Hsp. discriminate.
    + exact Hfail.
Defined.

(** The two failures that precede and follow the existence check. *)
Example play_check_fails :
  play env_long_name "/media/long.mp4" started
  = (Ok false,
     (with_state ERROR (with_process None (fst started)),
      snd (snd (play env_long_name "/media/long.mp4" started)))) /\
  spawned (snd (snd (play env_long_name "/media/long.mp4" started)))
  = spawned (snd started).
Proof. vm_compute. split; reflexivity. Qed.

Example play_spawn_fails :
  let '(r, (c, w)) := play env_no_exec "/media/a.mp4" (fresh, world0) in
  r = Ok false /\ state c = ERROR /\ process c = None /\ spawned w = [].
Proof. vm_compute. repeat split. Qed.

(** ** What a transition to Stopped resets *)

(** C2, as stated, fails: [stop] moves the state to Stopped and leaves the
    volume at 42 instead of the default 100. *)
Lemma stop_keeps_volume :
  volume fresh = 100%Z /\
  state (fst (snd (stop env_ok loud))) = STOPPED /\
  volume (fst (snd (stop env_ok loud))) = 42%Z /\
  volume (fst (snd (stop env_ok loud))) <> volume fresh.
Proof.
  split; [reflexivity |]. split; [vm_compute; reflexivity |].
  split; [vm_compute; reflexivity |].
  vm_compute. discriminate.
Qed.

(** C2, amended: [stop] sets the state to Stopped and resets the current
    file to None and the position and duration to 0.0; the volume is not
    reset by a transition to Stopped, neither by [stop] nor by the death
    detection of [is_running]: it keeps the last value set. *)
Theorem stop_resets_media_not_volume (E : Env) (c : Controller) (w : World) :
  state (fst (snd (stop E (c, w)))) = STOPPED /\
  current_file (fst (snd (stop E (c, w)))) = None /\
  current_position (fst (snd (stop E (c, w)))) = PFloat float_zero /\
  duration (fst (snd (stop E (c, w)))) = PFloat float_zero /\
  volume (fst (snd (stop E (c, w)))) = volume c /\
  volume (fst (snd (is_running E (c, w)))) = volume c.
Proof.
  destruct (stop_run E c w) as (w' & -> & _). cbn.
  repeat split.
  apply (@wp_is_running E (fun _ s' => volume (fst s') = volume c));
    intros; reflexivity.
Qed.

(** * Further properties *)

(** ** What the operations leave alone *)

Lemma evolves_frame : frame evolves.
Proof.
  split; unfold evolves; cbn; intros; auto 10.
  repeat match goal with H : _ /\ _ |- _ => destruct H end.
  repeat split; congruence.
Qed.

Lemma trivial_frame : frame (fun _ _ => True).
Proof. split; auto. Qed.

(** Settles [R c x] for [x] built from [c] by the assignments a frame
    respects. *)
Ltac framing HR :=
  unfold stopped, reaped, playing_on;
  repeat first
    [ assumption
    | apply (frame_refl HR)
    | eapply (frame_trans HR); [| apply (frame_process HR)]
    | eapply (frame_trans HR); [| apply (frame_state HR)]
    | eapply (frame_trans HR); [| apply (frame_current_file HR)]
    | eapply (frame_trans HR); [| apply (frame_current_position HR)]
    | eapply (frame_trans HR); [| apply (frame_duration HR)] ].

Section FrameSpecs.

Variable E : Env.
Variable R : Controller -> Controller -> Prop.
Hypothesis HR : frame R.

Lemma settled_frame c c1 : settled c c1 -> R c c1.
Proof. intros [Hnone | |]; framing HR. Qed.

Lemma wp_is_running_frame Q c w :
  (forall b c' w', R c c' -> (b = true -> c' = c /\ process c <> None) ->
                   Q (Ok b) (c', w')) ->
  wpM (is_running E) Q (c, w).
Proof.
  intros H. apply wp_is_running.
  - intros _. apply H; [framing HR | discriminate].
  - intros p w' Hp _ _. apply H; [framing HR |].
    intros _. split; [reflexivity | congruence].
  - intros p rc w' _ _ _. apply H; [framing HR | discriminate].
Qed.

Lemma wp_stop_frame Q c w :
  (forall c' w', R c c' -> Q (Ok true) (c', w')) -> wpM (stop E) Q (c, w).
Proof. intros H. apply wp_stop. intros w' _. apply H. framing HR. Qed.

Lemma wp_play_frame file_path Q c w :
  (forall b c' w', R c c' -> Q (Ok b) (c', w')) ->
  wpM (play E file_path) Q (c, w).
Proof.
  intros H. apply wp_play; intros; apply H;
    try match goal with Hs : settled _ _ |- _ => apply settled_frame in Hs end;
    framing HR.
Qed.

Lemma wp_pause_frame Q c w :
  (forall r c' w', R c c' -> Q (Ok r) (c', w')) -> wpM (pause E) Q (c, w).
Proof.
  intros H. unfold pause. wp_steps.
  apply wp_is_running_frame. intros b c' w1 Hc' Hb.
  wp_steps; [| apply H; assumption].
  apply wp_get_property. intros r1 w2 _.
  wp_steps; try (apply H; assumption).
  all: apply wp_set_property; intros r2 w3 _; wp_steps;
    apply H; framing HR.
Qed.

Lemma wp_resume_frame Q c w :
  (forall r c' w', R c c' -> Q (Ok r) (c', w')) -> wpM (resume E) Q (c, w).
Proof.
  intros H. unfold resume. wp_steps.
  apply wp_is_running_frame. intros b c' w1 Hc' Hb.
  wp_steps; [| apply H; assumption].
  apply wp_set_property; intros r2 w3 _; wp_steps; apply H; framing HR.
Qed.

Lemma wp_skip_frame seconds Q c w :
  (forall r c' w', R c c' -> Q (Ok r) (c', w')) ->
  wpM (skip E seconds) Q (c, w).
Proof.
  intros H. unfold skip. wp_steps.
  apply wp_is_running_frame. intros b c' w1 Hc' Hb.
  wp_steps; [| apply H; assumption].
  apply wp_seek_with. intros r w2 _. apply H. assumption.
Qed.

Lemma wp_seek_frame position Q c w :
  (forall r c' w', R c c' -> Q (Ok r) (c', w')) ->
  wpM (seek E position) Q (c, w).
Proof.
  intros H. unfold seek. wp_steps.
  apply wp_is_running_frame. intros b c' w1 Hc' Hb.
  wp_steps; [| apply H; assumption].
  apply wp_seek_with. intros r w2 _. apply H. assumption.
Qed.

Lemma wp_set_volume_frame level Q c w :
  (forall r c' w', R c c' \/ c' = with_volume level c ->
                   Q (Ok r) (c', w')) ->
  wpM (set_volume E level) Q (c, w).
Proof.
  intros H. unfold set_volume. wp_steps.
  apply wp_is_running_frame. intros b c' w1 Hc' Hb.
  wp_steps; [| apply H; left; assumption].
  destruct (Hb eq_refl) as [-> _].
  apply wp_set_property; intros r2 w3 _; wp_steps; apply H; auto.
Qed.

Lemma wp_get_status_frame Q c w :
  (forall r c' w', R c c' -> Q r (c', w')) -> wpM (get_status E) Q (c, w).
Proof.
  intros H. unfold get_status. wp_steps.
  apply wp_is_running_frame. intros b c' w1 Hc' Hb.
  wp_steps; [| apply H; assumption].
  apply wp_get_property. intros r1 w2 _.
  wp_steps; try (apply H; assumption).
  all: apply wp_get_property; intros r2 w3 _; wp_steps;
    apply H; framing HR.
Qed.

Lemma wp_set_hdmi_output_frame output Q c w :
  (forall b c' w', R (with_hdmi_output output c) c' -> Q (Ok b) (c', w')) ->
  wpM (set_hdmi_output E output) Q (c, w).
Proof.
  intros H. unfold set_hdmi_output. wp_steps.
  apply wp_is_running_frame. intros b c' w1 Hc' Hb.
  wp_steps; try (apply H; assumption).
  apply wp_stop_frame. intros c2 w2 Hc2. wp_steps.
  apply wp_play_frame. intros b' c3 w3 Hc3.
  assert (Hall : R (with_hdmi_output output c) c3)
    by (eapply (frame_trans HR); [eassumption |];
        eapply (frame_trans HR); eassumption).
  wp_steps; try (apply H; assumption).
  all: try (apply wp_seek_frame; intros r c4 w4 Hc4; wp_steps; apply H;
            eapply (frame_trans HR); eassumption).
Qed.

End FrameSpecs.

(** X1: no call changes the settings given to the constructor
    ([media_dir], [hardware_accel], [audio_in_headless]); the cached
    selector changes only in [set_hdmi_output], which always records the
    requested one, and the cached volume only in [set_volume], to the
    requested level. *)
Theorem calls_keep_settings (E : Env) (k : call) (c : Controller) (w : World) :
  media_dir (fst (perform E k (c, w))) = media_dir c /\
  hardware_accel (fst (perform E k (c, w))) = hardware_accel c /\
  audio_in_headless (fst (perform E k (c, w))) = audio_in_headless c /\
  hdmi_output (fst (perform E k (c, w))) =
    match k with
    | CallSetHdmiOutput output => output
    | _ => hdmi_output c
    end /\
  match k with
  | CallSetVolume level =>
      volume (fst (perform E k (c, w))) = volume c \/
      volume (fst (perform E k (c, w))) = level
  | _ => volume (fst (perform E k (c, w))) = volume c
  end.
Proof.
  pose proof evolves_frame as HR.
  destruct k; cbn [perform].
  - assert (Hev : evolves c (fst (snd (play E file_path (c, w)))))
      by (apply (@wp_play_frame E evolves HR file_path
                   (fun _ s' => evolves c (fst s'))); auto).
    destruct Hev as (? & ? & ? & ? & ?). auto.
  - assert (Hev : evolves c (fst (snd (pause E (c, w)))))
      by (apply (@wp_pause_frame E evolves HR
                   (fun _ s' => evolves c (fst s'))); auto).
    destruct Hev as (? & ? & ? & ? & ?). auto.
  - assert (Hev : evolves c (fst (snd (resume E (c, w)))))
      by (apply (@wp_resume_frame E evolves HR
                   (fun _ s' => evolves c (fst s'))); auto).
    destruct Hev as (? & ? & ? & ? & ?). auto.
  - assert (Hev : evolves c (fst (snd (stop E (c, w)))))
      by (apply (@wp_stop_frame E evolves HR
                   (fun _ s' => evolves c (fst s'))); auto).
    destruct Hev as (? & ? & ? & ? & ?). auto.
  - assert (Hev : evolves c (fst (snd (skip E seconds (c, w)))))
      by (apply (@wp_skip_frame E evolves HR seconds
                   (fun _ s' => evolves c (fst s'))); auto).
    destruct Hev as (? & ? & ? & ? & ?). auto.
  - assert (Hev : evolves c (fst (snd (seek E position (c, w)))))
      by (apply (@wp_seek_frame E evolves HR position
                   (fun _ s' => evolves c (fst s'))); auto).
    destruct Hev as (? & ? & ? & ? & ?). auto.
  - assert (Hev : evolves c (fst (snd (set_volume E level (c, w)))) \/
                  fst (snd (set_volume E level (c, w))) = with_volume level c)
      by (apply (@wp_set_volume_frame E evolves HR level
                   (fun _ s' => evolves c (fst s') \/
                                fst s' = with_volume level c)); auto).
    destruct Hev as [(? & ? & ? & ? & ?) | ->]; cbn; auto 10.
  - assert (Hev : evolves (with_hdmi_output output c)
                    (fst (snd (set_hdmi_output E output (c, w)))))
      by (apply (@wp_set_hdmi_output_frame E evolves HR output
                   (fun _ s' => evolves (with_hdmi_output output c) (fst s')));
          auto).
    destruct Hev as (? & ? & ? & ? & ?). cbn in *. auto.
  - assert (Hev : evolves c (fst (snd (is_running E (c, w)))))
      by (apply (@wp_is_running_frame E evolves HR
                   (fun _ s' => evolves c (fst s'))); auto).
    destruct Hev as (? & ? & ? & ? & ?). auto.
  - assert (Hev : evolves c (fst (snd (get_status E (c, w)))))
      by (apply (@wp_get_status_frame E evolves HR
                   (fun _ s' => evolves c (fst s'))); auto).
    destruct Hev as (? & ? & ? & ? & ?). auto.
Qed.

(** X2: no exception escapes [play], [pause], [resume], [stop], [skip],
    [seek], [set_volume], [set_hdmi_output] or [is_running], whatever the
    controller state and whatever the player, the socket peer and the
    filesystem do. *)
Theorem operations_absorb_faults (E : Env) (c : Controller) (w : World) :
  (forall file_path, exists b, fst (play E file_path (c, w)) = Ok b) /\
  (exists r, fst (pause E (c, w)) = Ok r) /\
  (exists r, fst (resume E (c, w)) = Ok r) /\
  (exists b, fst (stop E (c, w)) = Ok b) /\
  (forall seconds, exists r, fst (skip E seconds (c, w)) = Ok r) /\
  (forall position, exists r, fst (seek E position (c, w)) = Ok r) /\
  (forall level, exists r, fst (set_volume E level (c, w)) = Ok r) /\
  (forall output, exists b, fst (set_hdmi_output E output (c, w)) = Ok b) /\
  (exists b, fst (is_running E (c, w)) = Ok b).
Proof.
  pose proof trivial_frame as HR.
  repeat split; intros.
  - apply (@wp_play_frame E _ HR file_path (fun r _ => exists b, r = Ok b)).
    intros b ? ? _. exists b. reflexivity.
  - apply (@wp_pause_frame E _ HR (fun r _ => exists b, r = Ok b)).
    intros b ? ? _. exists b. reflexivity.
  - apply (@wp_resume_frame E _ HR (fun r _ => exists b, r = Ok b)).
    intros b ? ? _. exists b. reflexivity.
  - apply (@wp_stop_frame E _ HR (fun r _ => exists b, r = Ok b)).
    intros ? ? _. exists true. reflexivity.
  - apply (@wp_skip_frame E _ HR seconds (fun r _ => exists b, r = Ok b)).
    intros b ? ? _. exists b. reflexivity.
  - apply (@wp_seek_frame E _ HR position (fun r _ => exists b, r = Ok b)).
    intros b ? ? _. exists b. reflexivity.
  - apply (@wp_set_volume_frame E _ HR level (fun r _ => exists b, r = Ok b)).
    intros b ? ? _. exists b. reflexivity.
  - apply (@wp_set_hdmi_output_frame E _ HR output
             (fun r _ => exists b, r = Ok b)).
    intros b ? ? _. exists b. reflexivity.
  - apply (@wp_is_running_frame E _ HR (fun r _ => exists b, r = Ok b)).
    intros b ? ? _ _. exists b. reflexivity.
Qed.

(** ** The process handle and the state *)

Lemma booted_reachable : reachable env_ok booted.
Proof.
  apply (@reach_init env_ok "/media" true "auto" true world0).
  vm_compute. reflexivity.
Qed.

Lemma started_reachable : reachable env_ok started.
Proof.
  replace started with (perform env_ok (CallPlay "/media/a.mp4") booted)
    by (vm_compute; reflexivity).
  apply reach_call. apply booted_reachable.
Qed.

(** X3: between calls the controller holds no process handle exactly when
    its state is Stopped or Error (so it holds one exactly in Playing and
    Paused). *)
Theorem handle_iff_active (E : Env) (c : Controller) (w : World) :
  reachable E (c, w) ->
  (process c = None <-> (state c = STOPPED \/ state c = ERROR)).
Proof.
  intros Hreach. apply reachable_coherent in Hreach.
  unfold coherent in Hreach. cbn in Hreach. destruct Hreach as [Hto Hfrom].
  split.
  - intros Hnone. destruct (state c) eqn:Hs; auto.
    + exfalso. apply Hfrom; auto.
    + exfalso. apply Hfrom; auto.
  - intros [Hs | Hs]; destruct (process c) as [p |] eqn:Hp; auto;
      assert (Hne : Some p <> None) by discriminate;
      destruct (Hto Hne) as [Ha | Ha]; congruence.
Qed.

Lemma handle_iff_active_witness :
  (process (fst started) = None <->
   (state (fst started) = STOPPED \/ state (fst started) = ERROR)) /\
  (process (fst booted) = None <->
   (state (fst booted) = STOPPED \/ state (fst booted) = ERROR)).
Proof.
  split.
  - apply (@handle_iff_active env_ok (fst started) (snd started)).
    exact started_reachable.
  - apply (@handle_iff_active env_ok (fst booted) (snd booted)).
    exact booted_reachable.
Defined.

(** ** An exception that escapes [get_status] *)

(** X4: [get_status] is not protected by a [try].  On a running player,
    when the reply to the position poll is a truthy JSON value that is not
    an object (a non-empty array, a number, a string), [get_status] raises
    AttributeError to its caller; the controller is left as it was. *)
Theorem get_status_leaks_attribute_error (E : Env) (c : Controller)
    (w w1 w2 : World) (reply : pyval) :
  is_running E (c, w) = (Ok true, (c, w1)) ->
  _send_command E (get_property_command "time-pos") w1 = (Ok reply, w2) ->
  truthy reply = true ->
  (forall d, reply <> PDict d) ->
  get_status E (c, w) = (Raise AttributeError, (c, w2)).
Proof.
  intros Hrun Hsend Htruthy Hnodict.
  assert (Hpoll : _get_property E "time-pos" w1 = (Raise AttributeError, w2)).
  { unfold _get_property. cbn. rewrite Hsend. cbn. rewrite Htruthy.
    unfold of_outcome.
    destruct reply; cbn; try reflexivity.
    exfalso. eapply Hnodict. reflexivity. }
  unfold get_status. cbn. rewrite Hrun. cbn.
  erewrite lift_run by eassumption. reflexivity.
Qed.

Lemma get_status_leaks_attribute_error_witness :
  exists w2,
    get_status env_garbled (playing_a, world0)
    = (Raise AttributeError, (playing_a, w2)).
Proof.
  pose (r := _send_command env_garbled (get_property_command "time-pos")
               (tick world0)).
  vm_compute in r.
  exists (snd r).
  apply (@get_status_leaks_attribute_error env_garbled playing_a world0
           (tick world0) (snd r) (PList [PInt 1])).
  - vm_compute. reflexivity.
  - vm_compute. reflexivity.
  - reflexivity.
  - discriminate.
Defined.

(** ** Framing of replies *)

(** X6: the receive loop returns everything received up to and including
    the first chunk that contains a newline, bytes after the newline
    included; it stops at the first empty chunk (the peer closed) and when
    the stream ends; and when a [recv] fails the data received so far is
    dropped and the failure is raised. *)
Theorem recv_loop_framing (pre : list (list byte)) (acc : list byte) :
  Forall partial_chunk pre ->
  (forall final rest,
     existsb (Byte.eqb x0a) final = true ->
     recv_loop (List.app (map Chunk pre) (Chunk final :: rest)) acc
     = Ok (List.app acc (List.app (List.concat pre) final))) /\
  (forall rest,
     recv_loop (List.app (map Chunk pre) (Chunk [] :: rest)) acc
     = Ok (List.app acc (List.concat pre))) /\
  recv_loop (map Chunk pre) acc = Ok (List.app acc (List.concat pre)) /\
  (forall e rest,
     recv_loop (List.app (map Chunk pre) (RecvFail e :: rest)) acc = Raise e).
Proof.
  intros Hpre. revert acc.
  induction Hpre as [| chunk pre [Hne Hnl] Hpre IH]; intros acc.
  - cbn. rewrite app_nil_r. repeat split; try reflexivity.
    intros final rest Hfinal.
    destruct final as [| b final]; [discriminate |].
    cbn [recv_loop]. rewrite Hfinal. reflexivity.
  - destruct chunk as [| b chunk]; [congruence |].
    destruct (IH (List.app acc (b :: chunk))) as (H1 & H2 & H3 & H4).
    cbn [map List.app List.concat recv_loop]. rewrite Hnl.
    repeat split; intros.
    + rewrite H1 by assumption. rewrite <- !app_assoc. reflexivity.
    + rewrite H2. rewrite <- !app_assoc. reflexivity.
    + rewrite H3. rewrite <- !app_assoc. reflexivity.
    + apply H4.
Qed.

Lemma recv_loop_framing_witness :
  recv_loop [Chunk [x61]; Chunk [x62; x0a; x63]; Chunk [x64]] []
  = Ok [x61; x62; x0a; x63] /\
  recv_loop [Chunk [x61]; RecvFail SocketTimeout] [] = Raise SocketTimeout.
Proof.
  assert (Hpre : Forall partial_chunk [[x61]]).
  { constructor; [| constructor]. split; [discriminate | reflexivity]. }
  split.
  - apply (proj1 (recv_loop_framing [] Hpre) [x62; x0a; x63] [Chunk [x64]]).
    reflexivity.
  - apply (proj2 (proj2 (proj2 (recv_loop_framing [] Hpre)))).
Defined.

(** ** Construction *)

(** X7: constructing a controller never fails.  The new controller is
    Stopped, holds no process and no file, has position and duration 0.0
    and volume 100; nothing is spawned and no IPC happens; and a socket file
    left by an earlier run is gone, unless looking at it or deleting it
    failed. *)
Theorem init_cleans_socket (E : Env) (media : string) (hw : bool)
    (hdmi : string) (audio : bool) (w : World) :
  exists w',
    init E media hw hdmi audio w
    = (Ok {| media_dir := media; hardware_accel := hw; hdmi_output := hdmi;
             audio_in_headless := audio; process := None; state := STOPPED;
             current_file := None; current_position := PFloat float_zero;
             duration := PFloat float_zero; volume := 100 |}, w') /\
    silent w w' /\
    (socket_removable E -> sock w' = false).
Proof.
  pose proof (@wp_cleanup_socket E
    (fun r w' => r = Ok tt /\ silent w w' /\
                 (socket_removable E -> sock w' = false)) w) as H.
  unfold wpW in H. unfold init. cbn.
  destruct (_cleanup_socket E w) as [r w']. cbn in H.
  destruct H as (-> & Hs & Hsock); [auto |].
  exists w'. auto.
Qed.

(** ** Teardown *)

Lemma observe_socket_signals E w : signals (observe_socket E w) = signals w.
Proof.
  unfold observe_socket. destruct (socket_event E (clock w)); reflexivity.
Qed.

Lemma cleanup_socket_signals E w :
  signals (snd (_cleanup_socket E w)) = signals w.
Proof.
  unfold _cleanup_socket, socket_path_exists, socket_path_unlink. cbn.
  destruct (stat_raises E socket_path (clock w)); cbn;
    [apply observe_socket_signals |].
  destruct (sock (observe_socket E w)); cbn.
  - destruct (unlink_raises E _); cbn; apply observe_socket_signals.
  - apply observe_socket_signals.
Qed.

Lemma reachesb_reaches E deliver p t :
  reachesb E deliver p t = true <-> reaches E deliver p t.
Proof.
  unfold reachesb, reaches.
  destruct (poll E p t), (deliver p t); split;
    try discriminate; try (intros [? ?]; discriminate); auto.
Qed.

(** The signals of one cleanup that starts at instant [t], newest first. *)
Lemma cleanup_process_signals E c w :
  signals (snd (snd (_cleanup_process E (c, w)))) =
  match process c with
  | None => signals w
  | Some p =>
      List.app
        (match poll E p (clock w), terminate E p (clock w) with
         | None, Some _ => []
         | _, _ =>
             List.app
               (match wait E p 5 (S (clock w)) with
                | Some TimeoutExpired =>
                    if reachesb E (kill E) p (S (S (clock w)))
                    then [(p, SIGKILL)] else []
                | _ => []
                end)
               (if reachesb E (terminate E) p (clock w)
                then [(p, SIGTERM)] else [])
         end)
        (signals w)
  end.
Proof.
  unfold _cleanup_process, reachesb. cbn.
  destruct (process c) as [p |]; cbn;
    unfold finally_, except_, process_terminate, process_wait, process_kill,
      send_signal, lift, update, opt_raise; cbn.
  - destruct (poll E p (clock w)) as [rc |]; cbn;
      [| destruct (terminate E p (clock w)) as [e1 |]; cbn];
      try (destruct (wait E p 5 (S (clock w))) as [[] |]; cbn;
           try (destruct (poll E p (S (S (clock w)))) as [rc2 |]; cbn;
                [| destruct (kill E p (S (S (clock w)))) as [e3 |]; cbn];
                try (destruct (wait E p 2 (S (S (S (clock w)))))
                       as [e4 |]; cbn)));
      match goal with
      | |- context [_cleanup_socket E ?x] =>
          let H := fresh in
          pose proof (cleanup_socket_signals E x) as H;
          destruct (_cleanup_socket E x); cbn in H |- *; rewrite H
      end;
      try reflexivity.
  - pose proof (cleanup_socket_signals E w) as H.
    destruct (_cleanup_socket E w) as [r w']. exact H.
Qed.

(** X8: [stop] signals only the process it holds, and only while that
    process is reported running.  The signals it delivers come first in the
    record: SIGTERM exactly when [terminate] reaches the process, SIGKILL
    exactly when [terminate] returned, the 5 s wait timed out and [kill]
    reaches the process.  With no process held no signal is delivered, and
    a process that has exited when [terminate] is called gets no
    SIGTERM. *)
Theorem stop_signals (E : Env) (c : Controller) (w : World) :
  exists delivered,
    signals (snd (snd (stop E (c, w)))) = List.app delivered (signals w) /\
    (forall x, In x delivered -> process c = Some (fst x)) /\
    (forall p,
       process c = Some p ->
       (In (p, SIGTERM) delivered <-> reaches E (terminate E) p (clock w)) /\
       (In (p, SIGKILL) delivered <->
        terminate_returns E p (clock w) /\
        wait E p 5 (S (clock w)) = Some TimeoutExpired /\
        reaches E (kill E) p (S (S (clock w))))).
Proof.
  destruct (cleanup_process_run E c w) as (w' & Hrun & _).
  assert (Hsig : signals (snd (snd (stop E (c, w))))
                 = signals (snd (snd (_cleanup_process E (c, w)))))
    by (unfold stop; cbn; rewrite Hrun; reflexivity).
  rewrite Hsig, cleanup_process_signals. clear Hsig Hrun w'.
  destruct (process c) as [p |].
  2: { exists []. split; [reflexivity |]. split; [intros x [] |].
       intros p Hp. discriminate. }
  eexists. split; [reflexivity |].
  unfold terminate_returns.
  pose proof (reachesb_reaches E (terminate E) p (clock w)) as Ht.
  pose proof (reachesb_reaches E (kill E) p (S (S (clock w)))) as Hk.
  unfold reaches in *.
  split.
  - intros x Hx. f_equal.
    destruct (poll E p (clock w)), (terminate E p (clock w)),
      (wait E p 5 (S (clock w))) as [[] |],
      (reachesb E (kill E) p (S (S (clock w)))),
      (reachesb E (terminate E) p (clock w));
      cbn in Hx; intuition (subst; reflexivity).
  - intros q [= <-].
    destruct (reachesb E (terminate E) p (clock w)) eqn:Hbt;
      destruct (reachesb E (kill E) p (S (S (clock w)))) eqn:Hbk;
      destruct (poll E p (clock w)) as [rc |] eqn:Hpoll;
      destruct (terminate E p (clock w)) as [e1 |] eqn:Hterm;
      destruct (wait E p 5 (S (clock w))) as [[] |] eqn:Hwait;
      cbn; split; split;
      try (intros [Hx | Hx]; try discriminate Hx);
      try (intros [Hx | [Hx | Hy]]; try discriminate Hx);
      try tauto; try discriminate;
      try (intros; exfalso; intuition discriminate);
      intuition (try discriminate; try congruence).
Qed.

Example stop_dead_player_unsignalled :
  signals (snd orphaned) = [] /\
  signals (snd (snd (stop env_dies orphaned))) = [] /\
  signals (snd (snd (is_running env_dies orphaned))) = [] /\
  signals (snd (snd (stop env_ok started))) = [(1, SIGTERM)].
Proof. vm_compute. repeat split. Qed.

(** ** Operations on a running player *)

Lemma and_success_dict kv d :
  and_success (PDict (kv :: d)) = Ok (PBool (reply_ok (PDict (kv :: d)))).
Proof. reflexivity. Qed.

Lemma and_success_cases reply :
  (reply_ok reply = true /\ and_success reply = Ok (PBool true)) \/
  (reply_ok reply = false /\
   ((exists r, and_success reply = Ok r /\ truthy r = false) \/
    exists e, and_success reply = Raise e)).
Proof.
  assert (Hplain : reply_ok reply = false ->
                   (forall d, reply <> PDict d) ->
                   (exists r, and_success reply = Ok r /\ truthy r = false) \/
                   exists e, and_success reply = Raise e).
  { intros _ Hnd. unfold and_success.
    destruct (truthy reply) eqn:Ht; [right | left; eauto].
    exists AttributeError.
    destruct reply; try reflexivity. exfalso. eapply Hnd. reflexivity. }
  destruct reply as [| b | z | f | s | l | d];
    try (right; split; [reflexivity |]; apply Hplain;
         [reflexivity | discriminate]).
  destruct d as [| kv d].
  { right. split; [reflexivity |]. left.
    exists (PDict []). split; reflexivity. }
  rewrite and_success_dict.
  destruct (reply_ok (PDict (kv :: d))); [left | right]; auto.
  split; [reflexivity |]. left.
  exists (PBool false). split; reflexivity.
Qed.

Section RunningSpecs.

Variable E : Env.

Lemma set_property_run name v w reply w' :
  _send_command E (set_property_command name v) w = (Ok reply, w') ->
  _set_property E name v w = (and_success reply, w').
Proof.
  intros H. unfold _set_property. cbn. rewrite H. reflexivity.
Qed.

Lemma seek_with_run amount mode c w reply w2 :
  _send_command E (seek_command amount mode) w = (Ok reply, w2) ->
  exists r,
    seek_with E amount mode (c, w)
    = (Ok r,
       (c, if reply_ok reply
           then snd (_send_command E ao_reload_command (tick w2))
           else w2)) /\
    truthy r =
      reply_ok reply &&
      returned (fst (_send_command E ao_reload_command (tick w2))).
Proof.
  intros Hsend. unfold seek_with. cbn.
  erewrite lift_run by eassumption. cbn. unfold lift, of_outcome. cbn.
  destruct (and_success_cases reply)
    as [[Hok Hs] | [Hok [(r & Hs & Hr) | (e & Hs)]]];
    rewrite Hs, Hok; cbn.
  - unfold sleep. cbn.
    destruct (_send_command E ao_reload_command (tick w2))
      as [[r2 | e2] w3]; cbn; eauto.
  - rewrite Hr. cbn. eauto.
  - exists (PBool false). auto.
Qed.

Lemma seek_with_raise amount mode c w e w2 :
  _send_command E (seek_command amount mode) w = (Raise e, w2) ->
  seek_with E amount mode (c, w) = (Ok (PBool false), (c, w2)).
Proof.
  intros Hsend. unfold seek_with. cbn.
  erewrite lift_run by eassumption. reflexivity.
Qed.

End RunningSpecs.

(** X9: on a running player the result of [skip] and of [seek] is truthy
    exactly when the reply to the seek command reports success and the
    send of the audio resync that follows returns.  The resync is sent only
    after a successful seek, and its reply is ignored; but an error raised
    by the existence check of either send is caught by the operation, which
    then returns False, also after a seek that succeeded.  The command
    carries the amount as given, with mode "relative" for [skip] and
    "absolute" for [seek]; the controller, cached position included, is not
    touched. *)
Theorem skip_seek_follow_reply (E : Env) (amount : pyval) (c : Controller)
    (w w1 : World) :
  is_running E (c, w) = (Ok true, (c, w1)) ->
  (forall reply w2,
     _send_command E (seek_command amount "relative") w1 = (Ok reply, w2) ->
     exists r,
       skip E amount (c, w)
       = (Ok r,
          (c, if reply_ok reply
              then snd (_send_command E ao_reload_command (tick w2))
              else w2)) /\
       truthy r =
         reply_ok reply &&
         returned (fst (_send_command E ao_reload_command (tick w2)))) /\
  (forall reply w2,
     _send_command E (seek_command amount "absolute") w1 = (Ok reply, w2) ->
     exists r,
       seek E amount (c, w)
       = (Ok r,
          (c, if reply_ok reply
              then snd (_send_command E ao_reload_command (tick w2))
              else w2)) /\
       truthy r =
         reply_ok reply &&
         returned (fst (_send_command E ao_reload_command (tick w2)))) /\
  (forall e w2,
     _send_command E (seek_command amount "relative") w1 = (Raise e, w2) ->
     skip E amount (c, w) = (Ok (PBool false), (c, w2))) /\
  (forall e w2,
     _send_command E (seek_command amount "absolute") w1 = (Raise e, w2) ->
     seek E amount (c, w) = (Ok (PBool false), (c, w2))).
Proof.
  intros Hrun. repeat split.
  - intros reply w2 Hsend. unfold skip. cbn. rewrite Hrun. cbn.
    apply seek_with_run. assumption.
  - intros reply w2 Hsend. unfold seek. cbn. rewrite Hrun. cbn.
    apply seek_with_run. assumption.
  - intros e w2 Hsend. unfold skip. cbn. rewrite Hrun. cbn.
    eapply seek_with_raise. eassumption.
  - intros e w2 Hsend. unfold seek. cbn. rewrite Hrun. cbn.
    eapply seek_with_raise. eassumption.
Qed.

Lemma skip_seek_follow_reply_witness :
  exists r w3,
    skip env_ok (PInt 30) started = (Ok r, (fst started, w3)) /\
    truthy r = true.
Proof.
  pose (r1 := _send_command env_ok (seek_command (PInt 30) "relative")
                (tick (snd started))).
  vm_compute in r1.
  destruct (proj1 (@skip_seek_follow_reply env_ok (PInt 30) (fst started)
                     (snd started) (tick (snd started)) eq_refl)
              (reply_success PNone) (snd r1))
    as (r & Hskip & Hr).
  - vm_compute. reflexivity.
  - exists r. eexists. split; [exact Hskip |].
    rewrite Hr. vm_compute. reflexivity.
Defined.

(** X10: [pause] toggles on the pause flag polled from the player, not on
    the cached state.  With the flag read as [flag] (a failed poll reads as
    None, that is, not paused) it sends the negated flag; when the reply
    reports success the cached state becomes Paused if the flag was falsy
    and Playing if it was truthy, otherwise the state is kept and the result
    is falsy.  A poll that raises leaves the state and returns False. *)
Theorem pause_toggles_polled_flag (E : Env) (c : Controller) (w w1 : World) :
  is_running E (c, w) = (Ok true, (c, w1)) ->
  (forall flag w2 reply w3,
     _get_property E "pause" w1 = (Ok flag, w2) ->
     _send_command E (set_property_command "pause" (py_not flag)) w2
     = (Ok reply, w3) ->
     exists r,
       pause E (c, w)
       = (Ok r,
          (if reply_ok reply
           then with_state (if truthy flag then PLAYING else PAUSED) c
           else c, w3)) /\
       truthy r = reply_ok reply) /\
  (forall e w2,
     _get_property E "pause" w1 = (Raise e, w2) ->
     pause E (c, w) = (Ok (PBool false), (c, w2))).
Proof.
  intros Hrun. split.
  - intros flag w2 reply w3 Hflag Hsend.
    unfold pause. cbn. rewrite Hrun. cbn.
    erewrite lift_run by eassumption. cbn.
    erewrite lift_run by (apply set_property_run; eassumption).
    destruct (and_success_cases reply)
      as [[Hok Hs] | [Hok [(r & Hs & Hr) | (e & Hs)]]];
      rewrite Hs, Hok; cbn.
    + exists (PBool true). destruct (truthy flag); cbn; auto.
    + rewrite Hr. cbn. eauto.
    + exists (PBool false). auto.
  - intros e w2 Hflag.
    unfold pause. cbn. rewrite Hrun. cbn.
    erewrite lift_run by eassumption. reflexivity.
Qed.

Lemma pause_toggles_polled_flag_witness :
  exists r w3,
    pause env_ok started = (Ok r, (with_state PAUSED (fst started), w3)) /\
    truthy r = true.
Proof.
  pose (r1 := _get_property env_ok "pause" (tick (snd started))).
  vm_compute in r1.
  pose (r2 := _send_command env_ok
                (set_property_command "pause" (PBool true)) (snd r1)).
  vm_compute in r2.
  destruct (proj1 (@pause_toggles_polled_flag env_ok (fst started)
                     (snd started) (tick (snd started)) eq_refl)
              (PBool false) (snd r1) (reply_success PNone) (snd r2))
    as (r & Hpause & Hr).
  - vm_compute. reflexivity.
  - vm_compute. reflexivity.
  - exists r, (snd r2). split; [exact Hpause | exact Hr].
Defined.

(** X11: on a running player [resume] sends pause = False; the cached state
    becomes Playing exactly when the reply reports success, and the result
    is truthy exactly then. *)
Theorem resume_follows_reply (E : Env) (c : Controller) (w w1 w2 : World)
    (reply : pyval) :
  is_running E (c, w) = (Ok true, (c, w1)) ->
  _send_command E (set_property_command "pause" (PBool false)) w1
  = (Ok reply, w2) ->
  exists r,
    resume E (c, w)
    = (Ok r, (if reply_ok reply then with_state PLAYING c else c, w2)) /\
    truthy r = reply_ok reply.
Proof.
  intros Hrun Hsend.
  unfold resume. cbn. rewrite Hrun. cbn.
  erewrite lift_run by (apply set_property_run; eassumption).
  destruct (and_success_cases reply)
    as [[Hok Hs] | [Hok [(r & Hs & Hr) | (e & Hs)]]];
    rewrite Hs, Hok; cbn.
  - exists (PBool true). auto.
  - rewrite Hr. cbn. eauto.
  - exists (PBool false). auto.
Qed.

Lemma resume_follows_reply_witness :
  exists r w2,
    resume env_ok paused = (Ok r, (with_state PLAYING (fst paused), w2)) /\
    truthy r = true.
Proof.
  pose (r1 := _send_command env_ok
                (set_property_command "pause" (PBool false))
                (tick (snd paused))).
  vm_compute in r1.
  destruct (@resume_follows_reply env_ok (fst paused) (snd paused)
              (tick (snd paused)) (snd r1) (reply_success PNone))
    as (r & Hresume & Hr).
  - vm_compute. reflexivity.
  - vm_compute. reflexivity.
  - exists r, (snd r1). split; [exact Hresume | exact Hr].
Defined.

(** X12: on a running player [set_volume] forwards the level as given, with
    no clamping, and caches it exactly when the reply reports success; the
    result is truthy exactly then.  Otherwise the cached volume is kept. *)
Theorem set_volume_follows_reply (E : Env) (level : Z) (c : Controller)
    (w w1 w2 : World) (reply : pyval) :
  is_running E (c, w) = (Ok true, (c, w1)) ->
  _send_command E (set_property_command "volume" (PInt level)) w1
  = (Ok reply, w2) ->
  exists r,
    set_volume E level (c, w)
    = (Ok r, (if reply_ok reply then with_volume level c else c, w2)) /\
    truthy r = reply_ok reply.
Proof.
  intros Hrun Hsend.
  unfold set_volume. cbn. rewrite Hrun. cbn.
  erewrite lift_run by (apply set_property_run; eassumption).
  destruct (and_success_cases reply)
    as [[Hok Hs] | [Hok [(r & Hs & Hr) | (e & Hs)]]];
    rewrite Hs, Hok; cbn.
  - exists (PBool true). auto.
  - rewrite Hr. cbn. eauto.
  - exists (PBool false). auto.
Qed.

Lemma set_volume_follows_reply_witness :
  exists r w2,
    set_volume env_ok 200 started
    = (Ok r, (with_volume 200 (fst started), w2)) /\
    truthy r = true.
Proof.
  pose (r1 := _send_command env_ok
                (set_property_command "volume" (PInt 200))
                (tick (snd started))).
  vm_compute in r1.
  destruct (@set_volume_follows_reply env_ok 200 (fst started) (snd started)
              (tick (snd started)) (snd r1) (reply_success PNone))
    as (r & Hset & Hr).
  - vm_compute. reflexivity.
  - vm_compute. reflexivity.
  - exists r, (snd r1). split; [exact Hset | exact Hr].
Defined.

(** ** What a launch passes to the player *)

Lemma settled_command_line c c1 audio file_path :
  settled c c1 -> command_line c1 audio file_path = command_line c audio file_path.
Proof. intros []; reflexivity. Qed.

Lemma settled_headless c c1 :
  settled c c1 -> audio_in_headless c1 = audio_in_headless c.
Proof. intros []; reflexivity. Qed.

Lemma relaunched_steady E c file_path t w w1 w2 :
  relaunched E c file_path t w w1 -> steady w1 w2 ->
  relaunched E c file_path t w w2.
Proof.
  intros ((audio & Ha & Hsp) & Hterm & Hks) (Hns & Hks2).
  split; [| split].
  - exists audio. split; [assumption |]. unfold no_spawn in Hns. congruence.
  - intros p Hp Hr. apply Hks2. apply Hterm; assumption.
  - eapply incl_tran; eassumption.
Qed.

Lemma launch_failed_steady E c file_path t w w1 w2 :
  launch_failed E c file_path t w w1 -> steady w1 w2 ->
  launch_failed E c file_path t w w2.
Proof.
  intros (Hpopen & Hns1 & Hterm & Hks) (Hns & Hks2).
  split; [exact Hpopen |]. split; [| split].
  - unfold no_spawn in *. congruence.
  - intros p Hp Hr. apply Hks2. apply Hterm; assumption.
  - eapply incl_tran; eassumption.
Qed.

Section LaunchSpecs.

Variable E : Env.

(** The command builder returns the argument list that the settings give,
    with the detected audio device, if any and if detection is enabled. *)
Lemma wp_get_mpv_command_line file_path Q c w :
  (forall audio w', silent w w' ->
                    (audio_in_headless c = false -> audio = None) ->
                    Q (Ok (command_line c audio file_path)) (c, w')) ->
  wpM (_get_mpv_command E file_path) Q (c, w).
Proof.
  intros H. unfold _get_mpv_command. wp_steps;
    try (apply wp_detect_hdmi_audio; intros r w1 H1; wp_steps).
  all: match goal with
       | Hd : String.eqb ?d "" = false |- _ =>
           pose (audio := Some d)
       | |- _ => pose (audio := @None string)
       end.
  all: match goal with
       | |- _ (Ok ?cmd) _ =>
           replace cmd with (command_line c audio file_path);
             [apply H;
              [first [assumption | apply silent_refl] |
               subst audio; first [reflexivity | congruence]] |]
       end.
  all: subst audio; unfold command_line;
    destruct (hardware_accel c); destruct (String.eqb (hdmi_output c) "auto");
    reflexivity.
Qed.

Lemma wp_play_launch_line file_path Q c w :
  found E file_path (clock w) ->
  (forall c1 e w',
     settled c c1 ->
     launch_failed E c file_path (S (S (clock w))) w w' ->
     Q (Raise e) (c1, w')) ->
  (forall c1 w',
     relaunched E c file_path (S (S (clock w))) w w' ->
     Q (Ok true) (c1, w')) ->
  wpM (play_launch E file_path) Q (c, w).
Proof.
  intros [Hstat Hex] Hraise Hok. unfold play_launch. wp_steps.
  apply wp_path_exists; [intros e He; congruence |].
  intros _. rewrite Hex. cbn [negb]. wp_steps.
  assert (Hgo : forall c1 w1, settled c c1 -> silent w w1 ->
            (forall p, process c = Some p ->
                       reaches E (terminate E) p (S (S (clock w))) ->
                       In (p, SIGTERM) (signals w1)) ->
            wpM (_get_mpv_command E file_path)
              (fun r s' =>
                 match r with
                 | Ok cmd =>
                     wpM (p <- lift (Popen E cmd) ;;
                          update (with_process (Some p)) ;;
                          ret true) Q s'
                 | Raise e => Q (Raise e) s'
                 end) (c1, w1)).
  { intros c1 w1 Hset H1 Hterm.
    apply wp_get_mpv_command_line. intros audio w2 H2 Haudio. wp_steps.
    assert (Hsil : silent w w2) by eauto using silent_trans.
    assert (Hold : forall p, process c = Some p ->
                     reaches E (terminate E) p (S (S (clock w))) ->
                     In (p, SIGTERM) (signals w2))
      by (intros p Hp Hr; apply H2; apply Hterm; assumption).
    rewrite (settled_headless Hset) in Haudio.
    rewrite (settled_command_line audio file_path Hset).
    destruct Hsil as (_ & Hns & Hks).
    apply wp_Popen.
    - intros p Hp. wp_steps. apply Hok. split; [| split].
      + exists audio. split; [exact Haudio |].
        cbn. unfold no_spawn in Hns. congruence.
      + exact Hold.
      + exact Hks.
    - intros e He. wp_steps. apply Hraise; [assumption |].
      split; [| split; [| split]].
      + exists audio, (clock w2), e. auto.
      + exact Hns.
      + exact Hold.
      + exact Hks. }
  unfold is_running. wp_steps.
  - apply wp_process_poll.
    destruct (poll E p (clock (tick w))) as [rc |] eqn:Hpoll; wp_steps.
    + apply wp_cleanup_process. intros w2 H2 Hterm _. wp_steps.
      apply Hgo; [constructor | |].
      * eapply silent_trans; [apply tick_silent |].
        eapply silent_trans; [apply tick_silent | exact H2].
      * intros q Hq Hr. apply Hterm; [cbn; congruence | exact Hr].
    + unfold stop. wp_steps.
      apply wp_cleanup_process. intros w2 H2 Hterm _. wp_steps.
      apply Hgo; [constructor | |].
      * eapply silent_trans; [apply tick_silent |].
        eapply silent_trans; [apply tick_silent | exact H2].
      * intros q Hq Hr. apply Hterm; [cbn; congruence | exact Hr].
  - apply Hgo; [constructor; assumption | apply tick_silent |].
    intros q Hq. congruence.
Qed.

End LaunchSpecs.

Lemma relaunched_after E c c1 file_path t t1 w w1 w2 :
  silent w w1 ->
  (forall p, process c = Some p -> reaches E (terminate E) p t ->
             In (p, SIGTERM) (signals w1)) ->
  relaunched E c1 file_path t1 w1 w2 ->
  command_line c1 = command_line c ->
  audio_in_headless c1 = audio_in_headless c ->
  relaunched E c file_path t w w2.
Proof.
  intros (_ & Hns & Hks) Hterm ((audio & Ha & Hsp) & _ & Hks2) Hcmd Hh.
  split; [| split].
  - exists audio. split.
    + rewrite <- Hh. exact Ha.
    + rewrite <- Hcmd. unfold no_spawn in Hns. congruence.
  - intros p Hp Hr. apply Hks2. apply Hterm; assumption.
  - eapply incl_tran; eassumption.
Qed.

Lemma launch_failed_after E c c1 file_path t t1 w w1 w2 :
  silent w w1 ->
  (forall p, process c = Some p -> reaches E (terminate E) p t ->
             In (p, SIGTERM) (signals w1)) ->
  launch_failed E c1 file_path t1 w1 w2 ->
  command_line c1 = command_line c ->
  audio_in_headless c1 = audio_in_headless c ->
  launch_failed E c file_path t w w2.
Proof.
  intros (_ & Hns & Hks) Hterm
    ((audio & t' & e & Ha & Hpopen) & Hns2 & _ & Hks2) Hcmd Hh.
  split; [| split; [| split]].
  - exists audio, t', e. split.
    + rewrite <- Hh. exact Ha.
    + rewrite <- Hcmd. exact Hpopen.
  - unfold no_spawn in *. congruence.
  - intros p Hp Hr. apply Hks2. apply Hterm; assumption.
  - eapply incl_tran; eassumption.
Qed.

Section RelaunchSpecs.

Variable E : Env.

(** When the existence check finds the media file, [play] tries to start
    the player whatever happens next; when process creation fails it ends
    in state Error without a handle. *)
Lemma wp_play_relaunched file_path Q c w :
  found E file_path (clock w) ->
  (forall b c1 w',
     relaunched E c file_path (S (S (clock w))) w w' ->
     Q (Ok b) (c1, w')) ->
  (forall c1 w',
     launch_failed E c file_path (S (S (clock w))) w w' ->
     state c1 = ERROR -> process c1 = None ->
     Q (Ok false) (c1, w')) ->
  wpM (play E file_path) Q (c, w).
Proof.
  intros Hex H Hfail. unfold play. wp_steps. unfold play_body. wp_steps.
  apply wp_play_launch_line; [assumption | |].
  - intros c1 e w1 Hset Hre. wp_steps.
    apply wp_cleanup_process. intros w2 H2 _ _. wp_steps.
    apply Hfail; [| reflexivity | reflexivity].
    eauto using launch_failed_steady, silent_steady.
  - intros c1 w1 Hre. wp_steps.
    apply wp_await_socket. intros r w2 H2.
    assert (Hre2 : relaunched E c file_path (S (S (clock w))) w w2)
      by eauto using relaunched_steady, silent_steady.
    destruct r as [ready | e]; wp_steps.
    + apply wp_sleep. intros w3 H3. wp_steps.
      apply wp_get_property. intros [d | e] w4 H4; wp_steps.
      * apply H. eauto using relaunched_steady, silent_steady.
      * apply wp_cleanup_process. intros w5 H5 _ _. wp_steps.
        apply H. eauto 6 using relaunched_steady, silent_steady.
    + apply wp_cleanup_process. intros w3 H3 _ _. wp_steps.
      apply H. eauto using relaunched_steady, silent_steady.
    + apply wp_cleanup_process. intros w3 H3 _ _. wp_steps.
      apply H. eauto using relaunched_steady, silent_steady.
Qed.

Lemma wp_seek_steady position Q c w :
  (forall r c' w', steady w w' -> Q (Ok r) (c', w')) ->
  wpM (seek E position) Q (c, w).
Proof.
  intros H. unfold seek. wp_steps.
  apply wp_is_running.
  - intros _. wp_steps. apply H. apply steady_refl.
  - intros p w1 _ _ ->. wp_steps.
    apply wp_seek_with. intros r w2 H2. apply H.
    eapply steady_trans; [apply tick_steady | exact H2].
  - intros p rc w1 _ _ H1. wp_steps. apply H. apply silent_steady. exact H1.
Qed.

End RelaunchSpecs.

(** X13: whenever the existence check finds the media file, [play] tries
    to start the player, whether or not playback then comes up.  The
    argument list is built from the settings and from the cached volume and
    connector selector (an empty connector for "auto"), with the audio
    device only if detection is enabled, and with the media path last.
    Either exactly one process is started on that argument list, or process
    creation on it fails, and then nothing is started and [play] returns
    False in state Error with no handle.  A process that the controller
    held before gets SIGTERM if it has not exited by then and the signal
    goes through. *)
Theorem play_relaunches (E : Env) (file_path : string) (c : Controller)
    (w : World) :
  found E file_path (clock w) ->
  relaunched E c file_path (S (S (clock w))) w
    (snd (snd (play E file_path (c, w)))) \/
  launch_failed E c file_path (S (S (clock w))) w
    (snd (snd (play E file_path (c, w)))) /\
  fst (play E file_path (c, w)) = Ok false /\
  state (fst (snd (play E file_path (c, w)))) = ERROR /\
  process (fst (snd (play E file_path (c, w)))) = None.
Proof.
  intros Hex.
  apply (@wp_play_relaunched E file_path
           (fun r s' =>
              relaunched E c file_path (S (S (clock w))) w (snd s') \/
              launch_failed E c file_path (S (S (clock w))) w (snd s') /\
              r = Ok false /\ state (fst s') = ERROR /\
              process (fst s') = None) c w Hex).
  - intros b c1 w' Hre. left. exact Hre.
  - intros c1 w' Hf Hs Hp. right. cbn. auto.
Qed.

Lemma play_relaunches_witness :
  relaunched env_ok (with_volume 42 playing_a) "/media/b.mp4"
    (S (S (clock (snd loud)))) (snd loud)
    (snd (snd (play env_ok "/media/b.mp4"
                 (with_volume 42 playing_a, snd loud)))).
Proof.
  assert (Hspawn : List.length
                     (spawned (snd (snd (play env_ok "/media/b.mp4"
                                          (with_volume 42 playing_a,
                                           snd loud))))) = 2)
    by (vm_compute; reflexivity).
  destruct (@play_relaunches env_ok "/media/b.mp4" (with_volume 42 playing_a)
              (snd loud)) as [Hre | ((_ & Hns & _) & _)].
  - split; reflexivity.
  - exact Hre.
  - exfalso. unfold no_spawn in Hns. rewrite Hns in Hspawn.
    discriminate Hspawn.
Defined.

(** X14: [set_hdmi_output] on a live player that has a file restarts it.
    The old process gets SIGTERM if the signal reaches it.  Then, as long
    as the file is still found in the media directory, a player is started
    on the file of the media directory with the cached name, with the
    requested selector in its argument list: either exactly one process is
    started, whatever the call then returns, or process creation fails, and
    then nothing is started and the call returns False with the controller
    in state Error and without a handle. *)
Theorem set_hdmi_output_restarts (E : Env) (output name : string)
    (p : proc) (c : Controller) (w : World) :
  process c = Some p ->
  poll E p (clock w) = None ->
  current_file c = Some name ->
  name <> ""%string ->
  (forall t, found E (path_join E (media_dir c) name) t) ->
  relaunched E (with_hdmi_output output c) (path_join E (media_dir c) name)
    (S (clock w)) w (snd (snd (set_hdmi_output E output (c, w)))) \/
  launch_failed E (with_hdmi_output output c)
    (path_join E (media_dir c) name) (S (clock w)) w
    (snd (snd (set_hdmi_output E output (c, w)))) /\
  fst (set_hdmi_output E output (c, w)) = Ok false /\
  state (fst (snd (set_hdmi_output E output (c, w)))) = ERROR /\
  process (fst (snd (set_hdmi_output E output (c, w)))) = None.
Proof.
  intros Hp Hpoll Hfile Hname Hex.
  change (wpM (set_hdmi_output E output)
            (fun r s' =>
               relaunched E (with_hdmi_output output c)
                 (path_join E (media_dir c) name) (S (clock w)) w (snd s') \/
               launch_failed E (with_hdmi_output output c)
                 (path_join E (media_dir c) name) (S (clock w)) w (snd s') /\
               r = Ok false /\ state (fst s') = ERROR /\
               process (fst s') = None)
            (c, w)).
  unfold set_hdmi_output. wp_steps.
  apply wp_is_running.
  - intros Hnone. change (process c = None) in Hnone. congruence.
  - intros q w1 Hq _ ->. change (process c = Some q) in Hq.
    do 2 wp_step.
    change (current_file (with_hdmi_output output c)) with (current_file c).
    change (media_dir (with_hdmi_output output c)) with (media_dir c).
    rewrite Hfile.
    destruct (String.eqb name "") eqn:Hn;
      [apply String.eqb_eq in Hn; contradiction |].
    cbn [negb]. wp_steps.
    unfold stop. wp_steps.
    apply wp_cleanup_process. intros w2 H2 Hterm _. wp_steps.
    assert (Hsil : silent w w2)
      by (eapply silent_trans; [apply tick_silent | exact H2]).
    apply wp_play_relaunched; [apply Hex | |].
    + intros b c1 w3 Hre.
      assert (Hall : relaunched E (with_hdmi_output output c)
                       (path_join E (media_dir c) name) (S (clock w)) w w3).
      { eapply relaunched_after;
          [exact Hsil | | exact Hre | reflexivity | reflexivity].
        intros p' Hp' Hr. apply Hterm; assumption. }
      wp_steps; try (left; exact Hall).
      apply wp_seek_steady. intros r c2 w4 H4. wp_steps.
      left. eapply relaunched_steady; eassumption.
    + intros c1 w3 Hf Hs Hnone.
      assert (Hall : launch_failed E (with_hdmi_output output c)
                       (path_join E (media_dir c) name) (S (clock w)) w w3).
      { eapply launch_failed_after;
          [exact Hsil | | exact Hf | reflexivity | reflexivity].
        intros p' Hp' Hr. apply Hterm; assumption. }
      wp_steps. right. cbn. auto.
  - intros q rc w1 Hq Hrc _. change (process c = Some q) in Hq. congruence.
Qed.

Lemma set_hdmi_output_restarts_witness :
  relaunched env_ok (with_hdmi_output "HDMI-A-2" playing_a) "/media/a.mp4"
    (S (clock (snd started))) (snd started)
    (snd (snd (set_hdmi_output env_ok "HDMI-A-2" (playing_a, snd started)))).
Proof.
  assert (Hspawn : List.length
                     (spawned (snd (snd (set_hdmi_output env_ok "HDMI-A-2"
                                          (playing_a, snd started))))) = 2)
    by (vm_compute; reflexivity).
  destruct (@set_hdmi_output_restarts env_ok "HDMI-A-2" "a.mp4" 1%nat
              playing_a (snd started)) as [Hre | ((_ & Hns & _) & _)].
  - reflexivity.
  - reflexivity.
  - reflexivity.
  - discriminate.
  - intros t. split; reflexivity.
  - exact Hre.
  - exfalso. unfold no_spawn in Hns. rewrite Hns in Hspawn.
    discriminate Hspawn.
Defined.

(** With a player binary that cannot be started, switching the output
    stops playback for good. *)
Example set_hdmi_output_spawn_fails :
  let '(r, (c, w)) :=
    set_hdmi_output env_no_exec "HDMI-A-2" started in
  r = Ok false /\ state c = ERROR /\ process c = None /\
  spawned w = spawned (snd started) /\ signals w = [(1, SIGTERM)].
Proof. vm_compute. repeat split. Qed.

(** X15: without something to replay, [set_hdmi_output] only records the
    selector.  When the controller holds no process, or has no file or an
    empty file name, the call returns True, records the selector, keeps the
    file, and neither talks to a player nor starts one; with no process
    held nothing else changes at all. *)
Theorem set_hdmi_output_without_media (E : Env) (output : string)
    (c : Controller) (w : World) :
  process c = None \/ current_file c = None \/ current_file c = Some ""%string ->
  let s' := snd (set_hdmi_output E output (c, w)) in
  fst (set_hdmi_output E output (c, w)) = Ok true /\
  hdmi_output (fst s') = output /\
  current_file (fst s') = current_file c /\
  no_ipc w (snd s') /\ no_spawn w (snd s') /\
  (process c = None -> s' = (with_hdmi_output output c, w)).
Proof.
  intros Hidle.
  change (wpM (set_hdmi_output E output)
            (fun r s' =>
               r = Ok true /\
               hdmi_output (fst s') = output /\
               current_file (fst s') = current_file c /\
               no_ipc w (snd s') /\ no_spawn w (snd s') /\
               (process c = None -> s' = (with_hdmi_output output c, w)))
            (c, w)).
  unfold set_hdmi_output. wp_steps.
  apply wp_is_running.
  - intros _. wp_steps. cbn.
    repeat split; auto.
  - intros p w1 Hp _ ->. change (process c = Some p) in Hp.
    do 2 wp_step.
    change (current_file (with_hdmi_output output c)) with (current_file c).
    assert (Hno : current_file c = None \/ current_file c = Some ""%string)
      by (destruct Hidle as [Hn | Hn]; [congruence | exact Hn]).
    destruct Hno as [Hf | Hf]; rewrite Hf; cbn [String.eqb negb]; wp_steps;
      cbn; repeat split; auto; congruence.
  - intros p rc w1 Hp _ H1. change (process c = Some p) in Hp.
    wp_steps. cbn. destruct H1 as (Hni & Hns & _).
    repeat split; try apply Hni; auto; congruence.
Qed.

Lemma set_hdmi_output_without_media_witness :
  set_hdmi_output env_ok "HDMI-A-1" booted
  = (Ok true, (with_hdmi_output "HDMI-A-1" (fst booted), snd booted)).
Proof.
  pose proof (@set_hdmi_output_without_media env_ok "HDMI-A-1" (fst booted)
                (snd booted) (or_introl eq_refl)) as H.
  cbv zeta in H. destruct H as (Hr & _ & _ & _ & _ & Hs).
  specialize (Hs eq_refl).
  change (fst booted, snd booted) with booted in Hr, Hs.
  destruct (set_hdmi_output env_ok "HDMI-A-1" booted) as [r s'].
  cbn [fst snd] in Hr, Hs. rewrite Hr, Hs. reflexivity.
Defined.

(** ** A successful [play] *)

(** X16: when [play] returns True the existence check found the file, the
    controller is in state Playing, holds a process handle, and its current
    file is the base name of the path.  Its duration is the value that the
    player reported for the [duration] property, read after the launch, if
    that value is truthy, and 0.0 otherwise.  The cached volume and
    selector are as before, and exactly one process was started, on an
    argument list ending in the path. *)
Theorem play_success_state (E : Env) (file_path : string) (c : Controller)
    (w : World) :
  fst (play E file_path (c, w)) = Ok true ->
  let s' := snd (play E file_path (c, w)) in
  found E file_path (clock w) /\
  state (fst s') = PLAYING /\
  process (fst s') <> None /\
  current_file (fst s') = Some (path_name E file_path) /\
  (exists reported w1,
     launched file_path w w1 /\
     _get_property E "duration" w1 = (Ok reported, snd s') /\
     duration (fst s') =
       (if truthy reported then reported else PFloat float_zero)) /\
  volume (fst s') = volume c /\
  hdmi_output (fst s') = hdmi_output c /\
  launched file_path w (snd s').
Proof.
  apply (@wp_play E file_path
           (fun r s' =>
              r = Ok true ->
              found E file_path (clock w) /\
              state (fst s') = PLAYING /\
              process (fst s') <> None /\
              current_file (fst s') = Some (path_name E file_path) /\
              (exists reported w1,
                 launched file_path w w1 /\
                 _get_property E "duration" w1 = (Ok reported, snd s') /\
                 duration (fst s') =
                   (if truthy reported then reported
                    else PFloat float_zero)) /\
              volume (fst s') = volume c /\
              hdmi_output (fst s') = hdmi_output c /\
              launched file_path w (snd s')) c w);
    try (intros; discriminate).
  intros c1 p d w1 w' Hex Hset Hl1 Hl Hd _. cbn.
  split; [exact Hex |]. split; [reflexivity |].
  split; [discriminate |]. split; [reflexivity |].
  split; [exists d, w1; auto |].
  split; [destruct Hset; reflexivity |].
  split; [destruct Hset; reflexivity | exact Hl].
Qed.

Lemma play_success_state_witness :
  state (fst (snd (play env_ok "/media/a.mp4" (fst booted, snd booted))))
  = PLAYING.
Proof.
  pose proof (@play_success_state env_ok "/media/a.mp4" (fst booted)
                (snd booted)) as H.
  cbv zeta in H.
  assert (Hr : fst (play env_ok "/media/a.mp4" (fst booted, snd booted))
               = Ok true) by (vm_compute; reflexivity).
  exact (proj1 (proj2 (H Hr))).
Defined.

(** ** Reading a property *)

(** X17: [_get_property] sends one request and decides on its outcome
    alone.  From a reply whose [error] entry is "success" it returns the
    [data] entry; for any other dict and for a missing or falsy reply it
    returns None.  It raises in two cases only: [AttributeError] on a
    truthy reply that is not a dict, and the error of the existence check
    on the socket path, which the send lets through. *)
Theorem get_property_outcome (E : Env) (name : string) (w : World) :
  snd (_get_property E name w)
  = snd (_send_command E (get_property_command name) w) /\
  fst (_get_property E name w)
  = match fst (_send_command E (get_property_command name) w) with
    | Raise e => Raise e
    | Ok reply =>
        match reply with
        | PDict d => Ok (if reply_ok reply then dict_get d "data" else PNone)
        | _ => if truthy reply then Raise AttributeError else Ok PNone
        end
    end /\
  (forall e,
     fst (_send_command E (get_property_command name) w) = Raise e ->
     stat_raises E socket_path (clock w) = Some e).
Proof.
  split; [| split].
  - unfold _get_property. cbn.
    destruct (_send_command E (get_property_command name) w)
      as [[reply | e] w']; [| reflexivity].
    cbn -[dict_get].
    destruct reply as [| b | z | f | s | l | d]; cbn -[dict_get];
      try reflexivity.
    + destruct b; reflexivity.
    + destruct (negb (Z.eqb z 0)); reflexivity.
    + destruct (negb (float_is_zero f)); reflexivity.
    + destruct (negb (String.eqb s "")); reflexivity.
    + destruct l; reflexivity.
    + destruct d as [| kv d']; [reflexivity |].
      cbn -[dict_get].
      destruct (py_eq_str (dict_get (kv :: d') "error") "success");
        reflexivity.
  - unfold _get_property. cbn.
    destruct (_send_command E (get_property_command name) w)
      as [[reply | e] w']; [| reflexivity].
    cbn -[dict_get].
    destruct reply as [| b | z | f | s | l | d]; cbn -[dict_get];
      try reflexivity.
    + destruct b; reflexivity.
    + destruct (negb (Z.eqb z 0)); reflexivity.
    + destruct (negb (float_is_zero f)); reflexivity.
    + destruct (negb (String.eqb s "")); reflexivity.
    + destruct l; reflexivity.
    + destruct d as [| kv d']; [reflexivity |].
      cbn -[dict_get].
      destruct (py_eq_str (dict_get (kv :: d') "error") "success");
        reflexivity.
  - apply (@wp_send_command E (get_property_command name)
             (fun r _ => forall e, r = Raise e ->
                         stat_raises E socket_path (clock w) = Some e)).
    + intros e w' Hstat _ e' [= <-]. exact Hstat.
    + intros r w' _ _ e' He. discriminate He.
Qed.

Example get_property_raises :
  fst (_get_property env_denied "duration" world0) = Raise OSError /\
  fst (_get_property env_garbled "duration" (snd started))
  = Raise AttributeError.
Proof. vm_compute. split; reflexivity. Qed.

(** ** Validation of requests *)

Lemma in_valid_outputs (output : pyval) (l : list string) :
  existsb (py_eq_str output) l = true <->
  exists s, output = PStr s /\ In s l.
Proof.
  rewrite existsb_exists. split.
  - intros (x & Hin & Heq). destruct output; try discriminate.
    cbn in Heq. apply String.eqb_eq in Heq. subst x. eauto.
  - intros (s & -> & Hin). exists s. split; [assumption |].
    cbn. apply String.eqb_refl.
Qed.

(** X18: [validate_volume] returns exactly the integers that [int] yields
    and that lie between 0 and 150, bounds included: so a float is
    accepted by its integer part and a boolean as 0 or 1.  The one
    exception that is not a [ValidationError] is the [OverflowError] of an
    infinite float, which escapes the validator. *)
Theorem validate_volume_outcomes (int_of_str : string -> option Z)
    (py_str : pyval -> string) (raw : pyval) :
  (forall n,
     validate_volume int_of_str py_str raw = Return n <->
     py_int int_of_str raw = Converted n /\ (0 <= n <= 150)%Z) /\
  (validate_volume int_of_str py_str raw = Throw OverflowError <->
   exists s, raw = PFloat (S754_infinity s)).
Proof.
  unfold validate_volume, VOLUME_MIN, VOLUME_MAX. split.
  - intros n. destruct (py_int int_of_str raw) as [vol | | |] eqn:Hint.
    + destruct (Z.leb 0 vol && Z.leb vol 150) eqn:Hrange; cbn [negb].
      * apply andb_prop in Hrange. destruct Hrange as [Hlo Hhi].
        apply Z.leb_le in Hlo. apply Z.leb_le in Hhi.
        split.
        -- intros [= <-]. auto.
        -- intros [[= <-] _]. reflexivity.
      * split; [discriminate |].
        intros [[= <-] [Hlo Hhi]].
        apply Z.leb_le in Hlo. apply Z.leb_le in Hhi.
        rewrite Hlo, Hhi in Hrange. discriminate.
    + split; [discriminate | intros [? _]; discriminate].
    + split; [discriminate | intros [? _]; discriminate].
    + split; [discriminate | intros [? _]; discriminate].
  - destruct raw as [| b | z | f | s | l | d]; cbn;
      try (split; [discriminate | intros [? ?]; discriminate]).
    + destruct (negb _); split; try discriminate; intros [? ?]; discriminate.
    + destruct (negb _); split; try discriminate; intros [? ?]; discriminate.
    + destruct f as [sg | sg | | sg m e]; cbn.
      * split; [discriminate | intros [? ?]; discriminate].
      * split; [eauto | reflexivity].
      * split; [discriminate | intros [? ?]; discriminate].
      * destruct (negb _); split; try discriminate;
          intros [? ?]; discriminate.
    + destruct (int_of_str s) as [z |]; cbn.
      * destruct (negb _); split; try discriminate;
          intros [? ?]; discriminate.
      * split; [discriminate | intros [? ?]; discriminate].
Qed.

(** X19: [validate_hdmi_output] returns its argument unchanged, and only
    when it is one of the three strings "auto", "HDMI-A-1" and "HDMI-A-2";
    a value of any other type is refused. *)
Theorem validate_hdmi_output_accepts (py_str : pyval -> string)
    (output o : pyval) :
  validate_hdmi_output py_str output = Return o <->
  o = output /\
  (output = PStr "auto" \/ output = PStr "HDMI-A-1" \/
   output = PStr "HDMI-A-2").
Proof.
  unfold validate_hdmi_output.
  destruct (existsb (py_eq_str output) valid_outputs) eqn:Hin; cbn [negb].
  - apply in_valid_outputs in Hin. destruct Hin as (s & -> & Hs).
    split.
    + intros [= <-]. split; [reflexivity |].
      cbn in Hs. destruct Hs as [<- | [<- | [<- | []]]]; auto.
    + intros [-> _]. reflexivity.
  - split; [discriminate |].
    intros [_ Hs].
    assert (Hyes : existsb (py_eq_str output) valid_outputs = true).
    { apply in_valid_outputs.
      destruct Hs as [-> | [-> | ->]]; eexists; (split; [reflexivity |]);
        cbn; auto. }
    congruence.
Qed.

(** X20: a level that passed [validate_volume] keeps the cached volume
    within 0..150: after [set_volume] with it the cached volume is either
    the old one or the validated level. *)
Theorem validated_volume_keeps_range (E : Env)
    (int_of_str : string -> option Z) (py_str : pyval -> string)
    (raw : pyval) (level : Z) (c : Controller) (w : World) :
  validate_volume int_of_str py_str raw = Return level ->
  (0 <= volume c <= 150)%Z ->
  (0 <= volume (fst (snd (set_volume E level (c, w)))) <= 150)%Z.
Proof.
  intros Hval Hc.
  assert (Hlevel : (0 <= level <= 150)%Z).
  { unfold validate_volume, VOLUME_MIN, VOLUME_MAX in Hval.
    destruct (py_int int_of_str raw) as [vol | | |]; try discriminate.
    destruct (Z.leb 0 vol && Z.leb vol 150) eqn:Hrange; cbn [negb] in Hval;
      [| discriminate].
    injection Hval as <-.
    apply andb_prop in Hrange. destruct Hrange as [Hlo Hhi].
    apply Z.leb_le in Hlo. apply Z.leb_le in Hhi. lia. }
  apply (@wp_set_volume_frame E evolves evolves_frame level
           (fun _ s' => (0 <= volume (fst s') <= 150)%Z) c w).
  intros b c' w' [Hev | ->]; cbn.
  - destruct Hev as (_ & _ & _ & _ & Hv). rewrite Hv. exact Hc.
  - exact Hlevel.
Qed.

Lemma validated_volume_keeps_range_witness :
  (0 <= volume (fst (snd (set_volume env_ok 42 (fst started, snd started))))
   <= 150)%Z.
Proof.
  apply (@validated_volume_keeps_range env_ok (fun _ => None) (fun _ => "a"%string)
           (PFloat (S754_finite false 85 (-1))) 42 (fst started)
           (snd started)).
  - vm_compute. reflexivity.
  - cbn. lia.
Defined.

(** ** The liveness check *)

(** X21: [is_running] never raises and answers from one poll of the process
    handle: True exactly when a handle is held and the poll reports no exit
    code, and then the controller is untouched.  Otherwise the handle is
    gone afterwards; the file, the position, the duration and the settings
    are kept as they were, and no IPC and no launch takes place. *)
Theorem is_running_reports_poll (E : Env) (c : Controller) (w : World) :
  exists b c' w',
    is_running E (c, w) = (Ok b, (c', w')) /\
    (b = true <-> exists p, process c = Some p /\ poll E p (clock w) = None) /\
    (b = true -> c' = c) /\
    (b = false -> process c' = None) /\
    same_media c c' /\
    silent w w'.
Proof.
  pose proof (@wp_is_running E
                (fun r s' =>
                   exists b,
                     r = Ok b /\
                     (b = true <->
                      exists p, process c = Some p /\
                                poll E p (clock w) = None) /\
                     (b = true -> fst s' = c) /\
                     (b = false -> process (fst s') = None) /\
                     same_media c (fst s') /\
                     silent w (snd s')) c w) as H.
  unfold wpM in H.
  destruct (is_running E (c, w)) as [r [c' w']]. cbn [fst snd] in H.
  destruct H as (b & -> & Hb & Hsame & Hnone & Hmedia & Hsil).
  - intros Hp. exists false. cbn [fst snd].
    split; [reflexivity |].
    split; [split; [discriminate | intros (p & Hq & _); congruence] |].
    split; [discriminate |].
    split; [auto |].
    split; [repeat split | apply silent_refl].
  - intros p w1 Hp Hpoll ->. exists true. cbn [fst snd].
    split; [reflexivity |].
    split; [split; eauto |].
    split; [reflexivity |].
    split; [discriminate |].
    split; [repeat split | apply tick_silent].
  - intros p rc w1 Hp Hpoll H1. exists false. cbn [fst snd].
    split; [reflexivity |].
    split; [split; [discriminate | intros (q & Hq & Hq'); congruence] |].
    split; [discriminate |].
    split; [reflexivity |].
    split; [repeat split | exact H1].
  - exists b, c', w'.
    exact (conj eq_refl (conj Hb (conj Hsame (conj Hnone (conj Hmedia Hsil))))).
Qed.
